(** * openFrameworks Vulkan back end: BufferAllocator and RenderContext staging

    A shallow embedding of [libs/openFrameworks/vk/BufferAllocator.h] and of the
    staging path of [libs/openFrameworks/vk/RenderContext.h]
    ([stageData], [storeDataCmd], [allocateTransientCommandBuffer], [submit]).

    Conventions.
    - [::vk::DeviceSize] and [uint64_t] values are integers in [Z]; the places
      where the C++ arithmetic is modulo 2^64 carry an explicit [wrap64].
    - Pointers and Vulkan handles are integers, [nullptr] is 0.
    - [std::vector] is [list]; indexed reads are stdpp lookups, indexed writes
      stdpp inserts.
    - Calls whose behaviour the C++ standard leaves undefined ([front()] on an
      empty vector, an unchecked [operator[]] out of range) yield [Undefined]. *)

From Stdlib Require Import ZArith Lia Bool String.
From stdpp Require Import base tactics option list gmap.

Local Open Scope Z_scope.

(** ** Vulkan scalars used by the two headers *)

Module Vk.

Definition DeviceSize := Z.
Definition Handle := Z.
Definition Ptr := Z.

Definition nullptr : Z := 0.

Definition wrap64 (x : Z) : Z := x mod 2 ^ 64.

(* vulkan_core.h *)
Definition VK_WHOLE_SIZE : Z := 2 ^ 64 - 1.
Definition VK_QUEUE_FAMILY_IGNORED : Z := 2 ^ 32 - 1.

(* ::vk::AccessFlagBits *)
Definition eShaderRead : Z := 32.       (* 0x00000020 *)
Definition eTransferWrite : Z := 4096.  (* 0x00001000 *)

(* ::vk::PipelineStageFlagBits *)
Definition eTopOfPipe : Z := 1.

(* ::vk::CommandBufferUsageFlagBits *)
Definition eOneTimeSubmit : Z := 1.

(* ::vk::MemoryPropertyFlagBits *)
Definition eDeviceLocal : Z := 1.
Definition eHostVisible : Z := 2.
Definition eHostCoherent : Z := 4.

(* ::vk::BufferUsageFlagBits *)
Definition eTransferSrc : Z := 1.
Definition eTransferDst : Z := 2.
Definition eUniformBuffer : Z := 16.
Definition eIndexBuffer : Z := 64.
Definition eVertexBuffer : Z := 128.

Inductive CommandBufferLevel := ePrimary | eSecondary.

(* ::vk::BufferCopy *)
Module BufferCopy.
Record t := mk { srcOffset : Z; dstOffset : Z; size : Z }.
End BufferCopy.

(* ::vk::BufferMemoryBarrier, as the setters of the header fill it *)
Module BufferMemoryBarrier.
Record t := mk {
  srcAccessMask : Z;
  dstAccessMask : Z;
  srcQueueFamilyIndex : Z;
  dstQueueFamilyIndex : Z;
  buffer : Z;
  offset : Z;
  size : Z
}.
End BufferMemoryBarrier.

(* What a ::vk::CommandBuffer has had recorded into it.  The memory and
   image barrier lists of pipelineBarrier are kept by their lengths. *)
Inductive Command :=
| CmdBegin (usage : Z)
| CmdCopyBuffer (srcBuffer dstBuffer : Z) (regions : list BufferCopy.t)
| CmdPipelineBarrier (srcStageMask dstStageMask dependencyFlags : Z)
    (memoryBarriers : nat)
    (bufferMemoryBarriers : list BufferMemoryBarrier.t)
    (imageMemoryBarriers : nat)
| CmdEnd.

Record CommandBuffer := mkCommandBuffer {
  cbPool : Z;
  cbLevel : CommandBufferLevel;
  cbCommands : list Command
}.

Definition record (c : Command) (cmd : CommandBuffer) : CommandBuffer :=
  {| cbPool := cbPool cmd; cbLevel := cbLevel cmd;
     cbCommands := cbCommands cmd ++ [c] |}.

(* the buffer memory barriers a command buffer holds, in recording order *)
Definition barriersOf (cmd : CommandBuffer) : list BufferMemoryBarrier.t :=
  concat (List.map (fun c => match c with
                             | CmdPipelineBarrier _ _ _ _ bs _ => bs
                             | _ => []
                             end) (cbCommands cmd)).

End Vk.

(** ** The allocator interface RenderContext programs against

    [RenderContext.h] calls [allocate(size, offset)], [map(pData)] and
    [getBuffer()] through a pointer to the allocator.  [offset] and [pData] are
    reference parameters: the model passes the incoming value of [offset] and
    returns the value it has after the call.  These are the members
    [BufferAllocator.h] declares; the older class [Allocator] (allocate with
    a mapped address and a frame argument, no map) does not fit the calls. *)

Class Allocator (A : Type) := {
  allocate : A -> Z -> Z -> bool * Z * A;
  map : A -> bool * Z * A;
  getBuffer : A -> Z
}.

(** ** BufferAllocator.h *)

Module BufferAllocator.

(* struct Settings : AbstractAllocator::Settings; the inherited members are
   the ones the setters of the header assign. *)
Record Settings := mkSettings {
  size : Z;
  memFlags : Z;
  queueFamilyIndices : list Z;
  frameCount : nat;
  bufferUsageFlags : Z
}.

Definition defaultBufferUsageFlags : Z :=
  Z.lor Vk.eIndexBuffer
    (Z.lor Vk.eUniformBuffer
       (Z.lor Vk.eVertexBuffer (Z.lor Vk.eTransferSrc Vk.eTransferDst))).

(* The defaults of the members declared in this header; the inherited
   members, whose defaults live in vk/Allocator.h, start out zero or empty. *)
Definition defaultSettings : Settings :=
  {| size := 0; memFlags := 0; queueFamilyIndices := [];
     frameCount := 1; bufferUsageFlags := defaultBufferUsageFlags |}.

Definition setSize (size_ : Z) (st : Settings) : Settings :=
  {| size := size_; memFlags := memFlags st;
     queueFamilyIndices := queueFamilyIndices st;
     frameCount := frameCount st; bufferUsageFlags := bufferUsageFlags st |}.

Definition setMemFlags (flags_ : Z) (st : Settings) : Settings :=
  {| size := size st; memFlags := flags_;
     queueFamilyIndices := queueFamilyIndices st;
     frameCount := frameCount st; bufferUsageFlags := bufferUsageFlags st |}.

Definition setQueueFamilyIndices (indices_ : list Z) (st : Settings) : Settings :=
  {| size := size st; memFlags := memFlags st;
     queueFamilyIndices := indices_;
     frameCount := frameCount st; bufferUsageFlags := bufferUsageFlags st |}.

Definition setBufferUsageFlags (flags : Z) (st : Settings) : Settings :=
  {| size := size st; memFlags := memFlags st;
     queueFamilyIndices := queueFamilyIndices st;
     frameCount := frameCount st; bufferUsageFlags := flags |}.

Definition setFrameCount (count_ : nat) (st : Settings) : Settings :=
  {| size := size st; memFlags := memFlags st;
     queueFamilyIndices := queueFamilyIndices st;
     frameCount := count_; bufferUsageFlags := bufferUsageFlags st |}.

(* the private members of class BufferAllocator *)
Record t := mk {
  mSettings : Settings;
  mAlignment : Z;
  mOffsetEnd : list Z;
  mBaseAddress : list Z;
  mBuffer : Z;
  mDeviceMemory : Z;
  mCurrentMappedAddress : Z;
  mCurrentVirtualFrameIdx : nat
}.

(* BufferAllocator(): the default member initialisers *)
Definition init : t :=
  {| mSettings := defaultSettings; mAlignment := 256;
     mOffsetEnd := []; mBaseAddress := [];
     mBuffer := Vk.nullptr; mDeviceMemory := Vk.nullptr;
     mCurrentMappedAddress := Vk.nullptr; mCurrentVirtualFrameIdx := 0 |}.

(* bool map( void*& pAddr ) *)
Definition map (s : t) : bool * Z * t :=
  let pAddr := mCurrentMappedAddress s in
  (negb (mCurrentMappedAddress s =? Vk.nullptr), pAddr, s).

Definition getBuffer (s : t) : Z := mBuffer s.

Definition getDeviceMemory (s : t) : Z := mDeviceMemory s.

Definition getSettings (s : t) : Settings := mSettings s.

(** *** Members declared in the header and defined elsewhere

    [setup], [reset], [allocate], [swap] and [free] have no body in the
    header; the definitions below follow the specification text. *)

Definition with_cursor (s : t) (cursors : list Z) : t :=
  {| mSettings := mSettings s; mAlignment := mAlignment s;
     mOffsetEnd := cursors; mBaseAddress := mBaseAddress s;
     mBuffer := mBuffer s; mDeviceMemory := mDeviceMemory s;
     mCurrentMappedAddress := mCurrentMappedAddress s;
     mCurrentVirtualFrameIdx := mCurrentVirtualFrameIdx s |}.

Definition hostVisible (st : Settings) : bool :=
  negb (Z.land (memFlags st) Vk.eHostVisible =? 0).

(** Modelled from the spec: the slot size of a reservation, missing with
    [setup]/[allocate]: "a single opaque device-memory allocation of fixed
    total size S, divided into F equal-sized frame slots (S / F bytes
    each)". *)
Definition slotSize (st : Settings) : Z := size st / Z.of_nat (frameCount st).

(** Modelled from the spec: the base offset of slot [i], missing with
    [allocate]: "slot base" in "the absolute device offset (slot base +
    in-slot offset)", the slots being consecutive equal partitions. *)
Definition slotBase (st : Settings) (i : nat) : Z := Z.of_nat i * slotSize st.

(** Modelled from the spec: the rounding of [allocate], whose body is
    missing: "rounds byteCount up to the alignment boundary". *)
Definition roundUp (a n : Z) : Z := a * ((n + a - 1) / a).

(* What the device layer hands back to a successful setup: the memory
   reservation, the buffer bound to it and, for host-visible memory, the
   address the whole reservation is mapped at. *)
Record DeviceReply := mkReply {
  devMemory : Z;
  devBuffer : Z;
  devMapped : Z
}.

(** Modelled from the spec: the per-slot base pointers recorded by [setup],
    whose body is missing: "records F base pointers, one per slot (base +
    slot_index * slot_size)". *)
Definition slotPointers (st : Settings) (base : Z) : list Z :=
  (fun i => base + slotBase st i) <$> seq 0 (frameCount st).

(** Modelled from the spec: the contents of [mBaseAddress] after [setup],
    whose body is missing: the mapped base pointer is "per-slot, a
    host-visible address valid only when the reservation is host-mappable;
    null/absent for device-local-only reservations". *)
Definition baseAddresses (settings : Settings) (r : DeviceReply) : list Z :=
  if hostVisible settings then slotPointers settings (devMapped r)
  else replicate (frameCount settings) Vk.nullptr.

(** Modelled from the spec: [setup], whose body is missing: "Performs
    exactly one underlying memory reservation and one buffer-object creation
    bound to it ... If the memory is host-visible, maps the entire
    reservation once and records F base pointers, one per slot ...  Fails
    with an AllocationError if the device cannot satisfy the requested
    size/property combination"; every cursor starts at zero, slot 0 is
    active and [map] serves "the mapped base pointer for the active slot". *)
Definition setup (settings : Settings) (dev : option DeviceReply) : option t :=
  match dev with
  | None => None
  | Some r =>
      Some {| mSettings := settings; mAlignment := 256;
              mOffsetEnd := replicate (frameCount settings) 0;
              mBaseAddress := baseAddresses settings r;
              mBuffer := devBuffer r; mDeviceMemory := devMemory r;
              mCurrentMappedAddress :=
                default Vk.nullptr (baseAddresses settings r !! 0%nat);
              mCurrentVirtualFrameIdx := 0 |}
  end.

(** Modelled from the spec: [allocate], whose body is missing: "rounds
    byteCount up to the alignment boundary; if cursor_within_active_slot +
    roundedSize > slot_size, fails (returns failure, cursor unchanged ...);
    otherwise reserves [cursor, cursor+roundedSize) inside the active slot,
    advances the cursor, and returns the absolute device offset (slot base +
    in-slot offset).  Zero-byte requests are rejected as a caller error."
    An allocator without an active cursor (never set up, or torn down) fails:
    "calling allocate after reset() fails for every input".  Sizes are added
    and compared as integers, as in the specification text. *)
Definition allocate (s : t) (byteCount_ : Z) (offset : Z) : bool * Z * t :=
  if byteCount_ =? 0 then (false, offset, s)
  else
    let roundedSize := roundUp (mAlignment s) byteCount_ in
    match mOffsetEnd s !! mCurrentVirtualFrameIdx s with
    | None => (false, offset, s)
    | Some cursor =>
        if cursor + roundedSize >? slotSize (mSettings s) then (false, offset, s)
        else
          (true,
           slotBase (mSettings s) (mCurrentVirtualFrameIdx s) + cursor,
           with_cursor s
             (<[mCurrentVirtualFrameIdx s := cursor + roundedSize]> (mOffsetEnd s)))
    end.

(** Modelled from the spec: making slot [i] the active one, missing with
    [swap]: [map] "returns the mapped base pointer for the active slot if the
    reservation is host-visible". *)
Definition activate (s : t) (i : nat) : t :=
  {| mSettings := mSettings s; mAlignment := mAlignment s;
     mOffsetEnd := mOffsetEnd s;
     mBaseAddress := mBaseAddress s;
     mBuffer := mBuffer s; mDeviceMemory := mDeviceMemory s;
     mCurrentMappedAddress := default Vk.nullptr (mBaseAddress s !! i);
     mCurrentVirtualFrameIdx := i |}.

(** Modelled from the spec: [swap], whose body is missing: the active-frame
    index is "advanced by one modulo F on every swap"; a cursor is "reset to
    the slot's base offset whenever that slot becomes the active slot
    again". *)
Definition swap (s : t) : t :=
  let next := ((mCurrentVirtualFrameIdx s + 1) mod frameCount (mSettings s))%nat in
  activate (with_cursor s (<[next := 0]> (mOffsetEnd s))) next.

(** Modelled from the spec: [free], whose body is missing: free and swap
    "both reset a slot's cursor to zero, making the whole slot available
    again; they do not release any underlying device memory"; the header
    declares it without a frame argument, so the slot is the active one. *)
Definition free (s : t) : t :=
  with_cursor s (<[mCurrentVirtualFrameIdx s := 0]> (mOffsetEnd s)).

(** Modelled from the spec: [reset], whose body is missing: "unmaps (if
    mapped) and destroys the buffer object and the memory reservation;
    idempotent". *)
Definition reset (s : t) : t :=
  {| mSettings := mSettings s; mAlignment := mAlignment s;
     mOffsetEnd := []; mBaseAddress := [];
     mBuffer := Vk.nullptr; mDeviceMemory := Vk.nullptr;
     mCurrentMappedAddress := Vk.nullptr;
     mCurrentVirtualFrameIdx := 0 |}.

(* The cursor of the active slot, when there is one. *)
Definition cursor (s : t) : option Z := mOffsetEnd s !! mCurrentVirtualFrameIdx s.

(* The calls that change an allocator between setup and teardown. *)
Inductive op := Allocate (byteCount_ : Z) | Swap | Free.

Definition step (s : t) (o : op) : t :=
  match o with
  | Allocate n => (allocate s n 0).2
  | Swap => swap s
  | Free => free s
  end.

Definition run (s : t) (ops : list op) : t := foldl step s ops.

(* A run of successful allocations in the active slot: the returned
   offsets together with the rounded sizes reserved at them. *)
Fixpoint allocateAll (s : t) (requests : list Z) : option (list (Z * Z) * t) :=
  match requests with
  | [] => Some ([], s)
  | n :: rest =>
      match allocate s n 0 with
      | (true, off, s') =>
          match allocateAll s' rest with
          | Some (offs, s'') => Some ((off, roundUp (mAlignment s) n) :: offs, s'')
          | None => None
          end
      | (false, _, _) => None
      end
  end.

(* Reservations laid end to end from [lo]: each entry is an offset with the
   number of bytes reserved at it. *)
Fixpoint contiguous (lo : Z) (offs : list (Z * Z)) : Prop :=
  match offs with
  | [] => True
  | (o, r) :: rest => o = lo /\ 0 < r /\ contiguous (o + r) rest
  end.

(* What setup establishes and allocate, swap and free keep. *)
Definition invariant (st : Settings) (rep : DeviceReply) (s : t) : Prop :=
  mSettings s = st /\
  mAlignment s = 256 /\
  length (mOffsetEnd s) = frameCount st /\
  Forall (fun c => (256 | c)) (mOffsetEnd s) /\
  mBaseAddress s = baseAddresses st rep /\
  ((0 < frameCount st)%nat -> (mCurrentVirtualFrameIdx s < frameCount st)%nat) /\
  mCurrentMappedAddress s =
    default Vk.nullptr (baseAddresses st rep !! mCurrentVirtualFrameIdx s).

(* An allocator with settings [st] whose active slot is [i], with the
   cursor of that slot at [c] inside the slot. *)
Definition readyAt (st : Settings) (i : nat) (c : Z) (s : t) : Prop :=
  mSettings s = st /\ mCurrentVirtualFrameIdx s = i /\ cursor s = Some c /\
  0 < mAlignment s /\ 0 <= c <= slotSize st.

End BufferAllocator.

#[export] Instance BufferAllocator_Allocator : Allocator BufferAllocator.t := {
  allocate := BufferAllocator.allocate;
  map := BufferAllocator.map;
  getBuffer := BufferAllocator.getBuffer
}.

(** ** RenderContext.h *)

Inductive outcome (T : Type) :=
| Done (x : T)
| Undefined
| Thrown.
Arguments Done {T} x.
Arguments Undefined {T}.
Arguments Thrown {T}.

Module TransferSrcData.
Record t := mk { pData : Z; numElements : Z; numBytesPerElement : Z }.
End TransferSrcData.

Module BufferRegion.
Record t := mk { buffer : Z; offset : Z; range : Z; numElements : Z }.

(* the default member initialisers *)
Definition init : t :=
  {| buffer := Vk.nullptr; offset := 0; range := Vk.VK_WHOLE_SIZE; numElements := 0 |}.
End BufferRegion.

(* One call of memcpy( dst, src, count ). *)
Record Memcpy := mkMemcpy { mcDst : Z; mcSrc : Z; mcCount : Z }.

Module RenderContext.

Import Vk.

(* struct VirtualFrame: the members the staging path touches *)
Record VirtualFrame := mkVirtualFrame {
  commandPool : Z;
  commandBuffers : list CommandBuffer
}.

(* The members of class RenderContext the staging path touches.
   [mTransientMemory] is the address of the allocator the context owns. *)
Record t := mk {
  mVirtualFrames : list VirtualFrame;
  mCurrentVirtualFrame : nat;
  mTransientMemory : nat
}.

Section WithAllocator.

Context {A : Type} `{Allocator A}.

(* Everything outside the context that the staging path reads or
   writes: the allocator objects by address (so that the target
   allocator may or may not be the context's own), the memcpy calls
   made into mapped memory, and the lines sent to ofLogError. *)
Record World := mkWorld {
  allocators : nat -> A;
  hostWrites : list Memcpy;
  errorLog : list string
}.

Definition store (p : nat) (a : A) (w : World) : World :=
  {| allocators := fun q => if Nat.eqb q p then a else allocators w q;
     hostWrites := hostWrites w;
     errorLog := errorLog w |}.

(* p->allocate( byteCount, offset ) *)
Definition callAllocate (p : nat) (byteCount offset : Z) (w : World)
  : bool * Z * World :=
  let '(ok, offset', a') := allocate (allocators w p) byteCount offset in
  (ok, offset', store p a' w).

(* p->map( pAddr ) *)
Definition callMap (p : nat) (w : World) : bool * Z * World :=
  let '(ok, pAddr, a') := map (allocators w p) in
  (ok, pAddr, store p a' w).

Definition memcpy (dst src count : Z) (w : World) : World :=
  {| allocators := allocators w;
     hostWrites := hostWrites w ++ [mkMemcpy dst src count];
     errorLog := errorLog w |}.

Definition ofLogError (msg : string) (w : World) : World :=
  {| allocators := allocators w;
     hostWrites := hostWrites w;
     errorLog := errorLog w ++ [msg] |}.

(* region.size = src.numBytesPerElement * src.numElements *)
Definition byteSize (src : TransferSrcData.t) : Z :=
  wrap64 (TransferSrcData.numBytesPerElement src * TransferSrcData.numElements src).

(* The body of the loop of stageData for one element of dataVec, up to
   the push_back or the else branch. *)
Definition stageItem (ctx : t) (targetAllocator : nat)
    (src : TransferSrcData.t) (w : World) : option BufferCopy.t * World :=
  let size := byteSize src in
  let '(ok1, dstOffset, w1) := callAllocate targetAllocator size 0 w in
  if ok1 then
    let '(ok2, srcOffset, w2) := callAllocate (mTransientMemory ctx) size 0 w1 in
    if ok2 then
      let '(ok3, pData, w3) := callMap (mTransientMemory ctx) w2 in
      if ok3 then
        (Some (BufferCopy.mk srcOffset dstOffset size),
         memcpy pData (TransferSrcData.pData src) size w3)
      else (None, w3)
    else (None, w2)
  else (None, w1).

Fixpoint stageLoop (ctx : t) (targetAllocator : nat)
    (dataVec : list TransferSrcData.t) (regions : list BufferCopy.t)
    (w : World) : list BufferCopy.t * World :=
  match dataVec with
  | [] => (regions, w)
  | src :: rest =>
      match stageItem ctx targetAllocator src w with
      | (Some region, w') =>
          stageLoop ctx targetAllocator rest (regions ++ [region]) w'
      | (None, w') => (regions, ofLogError "StageData: alloc error" w')
      end
  end.

Definition stageData (ctx : t) (targetAllocator : nat)
    (dataVec : list TransferSrcData.t) (w : World)
  : list BufferCopy.t * World :=
  stageLoop ctx targetAllocator dataVec [] w.

(* mVirtualFrames[mCurrentVirtualFrame] and the device call *)
Definition allocateTransientCommandBuffer (ctx : t)
    (commandBufferLevel : CommandBufferLevel) : outcome CommandBuffer :=
  match mVirtualFrames ctx !! mCurrentVirtualFrame ctx with
  | None => Undefined
  | Some frame =>
      Done {| cbPool := commandPool frame; cbLevel := commandBufferLevel;
              cbCommands := [] |}
  end.

(* mVirtualFrames.at( mCurrentVirtualFrame ).commandBuffers.emplace_back *)
Definition submit (ctx : t) (commandBuffer : CommandBuffer) : outcome t :=
  match mVirtualFrames ctx !! mCurrentVirtualFrame ctx with
  | None => Thrown
  | Some frame =>
      let frame' :=
        {| commandPool := commandPool frame;
           commandBuffers := commandBuffers frame ++ [commandBuffer] |} in
      Done {| mVirtualFrames :=
                <[mCurrentVirtualFrame ctx := frame']> (mVirtualFrames ctx);
              mCurrentVirtualFrame := mCurrentVirtualFrame ctx;
              mTransientMemory := mTransientMemory ctx |}
  end.

(* The loop of storeDataCmd, for ( size_t i = ...; i != copyRegions.size();
   ++i ), with [n] the iterations still to run. *)
Fixpoint describeFrom (targetBuffer : Z) (copyRegions : list BufferCopy.t)
    (dataVec : list TransferSrcData.t) (i n : nat)
    (resultBuffers : list BufferRegion.t) : outcome (list BufferRegion.t) :=
  match n with
  | O => Done resultBuffers
  | S n' =>
      match copyRegions !! i, dataVec !! i with
      | Some region, Some srcData =>
          let bufRegion :=
            {| BufferRegion.buffer := targetBuffer;
               BufferRegion.numElements := TransferSrcData.numElements srcData;
               BufferRegion.offset := BufferCopy.dstOffset region;
               BufferRegion.range := BufferCopy.size region |} in
          describeFrom targetBuffer copyRegions dataVec (S i) n'
            (resultBuffers ++ [bufRegion])
      | _, _ => Undefined
      end
  end.

Definition transferBarrier (targetBuffer firstOffset totalStaticRange : Z)
  : BufferMemoryBarrier.t :=
  {| BufferMemoryBarrier.srcAccessMask := eTransferWrite;
     BufferMemoryBarrier.dstAccessMask := eShaderRead;
     BufferMemoryBarrier.srcQueueFamilyIndex := VK_QUEUE_FAMILY_IGNORED;
     BufferMemoryBarrier.dstQueueFamilyIndex := VK_QUEUE_FAMILY_IGNORED;
     BufferMemoryBarrier.buffer := targetBuffer;
     BufferMemoryBarrier.offset := firstOffset;
     BufferMemoryBarrier.size := totalStaticRange |}.

Definition storeDataCmd (ctx : t) (targetAllocator : nat)
    (dataVec : list TransferSrcData.t) (w : World)
  : outcome (list BufferRegion.t * t * World) :=
  let '(copyRegions, w1) := stageData ctx targetAllocator dataVec w in
  let targetBuffer := getBuffer (allocators w1 targetAllocator) in
  match describeFrom targetBuffer copyRegions dataVec 0 (length copyRegions) [] with
  | Done resultBuffers =>
      match head copyRegions, last copyRegions with
      | Some front, Some back =>
          let firstOffset := BufferCopy.dstOffset front in
          let totalStaticRange :=
            wrap64 (wrap64 (BufferCopy.dstOffset back + BufferCopy.size back)
                    - firstOffset) in
          match allocateTransientCommandBuffer ctx ePrimary with
          | Done cmd =>
              let cmd := record (CmdBegin eOneTimeSubmit) cmd in
              let cmd :=
                record (CmdCopyBuffer
                          (getBuffer (allocators w1 (mTransientMemory ctx)))
                          (getBuffer (allocators w1 targetAllocator))
                          copyRegions) cmd in
              let bufferTransferBarrier :=
                transferBarrier (getBuffer (allocators w1 targetAllocator))
                  firstOffset totalStaticRange in
              let cmd :=
                record (CmdPipelineBarrier eTopOfPipe eTopOfPipe 0
                          0 [bufferTransferBarrier] 0) cmd in
              let cmd := record CmdEnd cmd in
              match submit ctx cmd with
              | Done ctx' => Done (resultBuffers, ctx', w1)
              | Undefined => Undefined
              | Thrown => Thrown
              end
          | Undefined => Undefined
          | Thrown => Thrown
          end
      | _, _ => Undefined
      end
  | Undefined => Undefined
  | Thrown => Thrown
  end.

(* What the loop of storeDataCmd builds when every index is in range. *)
Definition describe (targetBuffer : Z) (copyRegions : list BufferCopy.t)
    (dataVec : list TransferSrcData.t) : list BufferRegion.t :=
  zip_with
    (fun region srcData =>
       {| BufferRegion.buffer := targetBuffer;
          BufferRegion.numElements := TransferSrcData.numElements srcData;
          BufferRegion.offset := BufferCopy.dstOffset region;
          BufferRegion.range := BufferCopy.size region |})
    copyRegions dataVec.

(* The command buffer most recently handed to the current frame. *)
Definition lastSubmitted (ctx : t) : option CommandBuffer :=
  match mVirtualFrames ctx !! mCurrentVirtualFrame ctx with
  | Some frame => last (commandBuffers frame)
  | None => None
  end.

End WithAllocator.

Arguments World A : clear implicits.

End RenderContext.

(** ** Concrete configurations

    The reservations of the specification's scenario A (1024 bytes in two
    slots of 512), host-visible for staging and device-local as a copy
    target, and a reservation whose slot size is not a multiple of the
    alignment. *)

Module Scenario.

Import BufferAllocator.

Definition hostSettings : Settings :=
  setMemFlags (Z.lor Vk.eHostVisible Vk.eHostCoherent)
    (setFrameCount 2 (setSize 1024 defaultSettings)).

Definition localSettings : Settings :=
  setMemFlags Vk.eDeviceLocal (setFrameCount 2 (setSize 1024 defaultSettings)).

Definition oddSettings : Settings :=
  setMemFlags Vk.eDeviceLocal (setFrameCount 2 (setSize 1000 defaultSettings)).

Definition hostReply : DeviceReply :=
  {| devMemory := 11; devBuffer := 12; devMapped := 4096 |}.

Definition localReply : DeviceReply :=
  {| devMemory := 21; devBuffer := 22; devMapped := 0 |}.

Definition ready (st : Settings) (rep : DeviceReply) : t :=
  default init (setup st (Some rep)).

Definition staging : t := ready hostSettings hostReply.
Definition target : t := ready localSettings localReply.
Definition odd : t := ready oddSettings localReply.

(* A render context with two virtual frames whose transient allocator
   lives at address 0; the copy target lives at address 1. *)
Definition context : RenderContext.t :=
  {| RenderContext.mVirtualFrames :=
       [RenderContext.mkVirtualFrame 31 []; RenderContext.mkVirtualFrame 32 []];
     RenderContext.mCurrentVirtualFrame := 0;
     RenderContext.mTransientMemory := 0 |}.

Definition world : RenderContext.World t :=
  {| RenderContext.allocators := fun p => if Nat.eqb p 0 then staging else target;
     RenderContext.hostWrites := [];
     RenderContext.errorLog := [] |}.

(* The same staging allocator in front of a target with slots of 1024. *)
Definition largeSettings : Settings :=
  setMemFlags Vk.eDeviceLocal (setFrameCount 2 (setSize 2048 defaultSettings)).

Definition large : t := ready largeSettings localReply.

Definition worldLarge : RenderContext.World t :=
  {| RenderContext.allocators := fun p => if Nat.eqb p 0 then staging else large;
     RenderContext.hostWrites := [];
     RenderContext.errorLog := [] |}.

(* 25 four-byte elements at host address 1000, 50 bytes at 2000, and one
   element of a whole slot at 3000. *)
Definition vertices : TransferSrcData.t :=
  {| TransferSrcData.pData := 1000; TransferSrcData.numElements := 25;
     TransferSrcData.numBytesPerElement := 4 |}.

Definition indices : TransferSrcData.t :=
  {| TransferSrcData.pData := 2000; TransferSrcData.numElements := 50;
     TransferSrcData.numBytesPerElement := 1 |}.

Definition texels : TransferSrcData.t :=
  {| TransferSrcData.pData := 3000; TransferSrcData.numElements := 1;
     TransferSrcData.numBytesPerElement := 512 |}.

End Scenario.

(** ** RenderContext.h: the pipeline cache

    [mPipelineCache] is a [std::map<uint64_t, std::shared_ptr<::vk::Pipeline>>];
    a shared pointer is the handle it holds, the empty one being [nullptr]. *)

Module PipelineCache.

(* borrowPipeline: return mPipelineCache[pipelineHash].  operator[] of
   std::map inserts a value-initialised element when the key is missing and
   hands out a reference to the mapped element; the model returns the
   element together with the map as the call leaves it. *)
Definition borrowPipeline (pipelineHash : Z) (mPipelineCache : gmap Z Z)
  : Z * gmap Z Z :=
  match mPipelineCache !! pipelineHash with
  | Some pipeline => (pipeline, mPipelineCache)
  | None => (Vk.nullptr, <[pipelineHash := Vk.nullptr]> mPipelineCache)
  end.

End PipelineCache.

(** ** Further configurations *)

Module ScenarioMore.

(* a context that was never given virtual frames *)
Definition bare : RenderContext.t :=
  {| RenderContext.mVirtualFrames := [];
     RenderContext.mCurrentVirtualFrame := 0;
     RenderContext.mTransientMemory := 0 |}.

Definition copyCmd : Vk.CommandBuffer :=
  {| Vk.cbPool := 31; Vk.cbLevel := Vk.ePrimary;
     Vk.cbCommands := [Vk.CmdBegin Vk.eOneTimeSubmit; Vk.CmdEnd] |}.

Definition drawCmd : Vk.CommandBuffer :=
  {| Vk.cbPool := 31; Vk.cbLevel := Vk.eSecondary; Vk.cbCommands := [] |}.

(* a cache holding one pipeline, with handle 77 under hash 5 *)
Definition pipelines : gmap Z Z := {[ 5 := 77 ]}.

End ScenarioMore.

(** ** An allocator whose map() follows its allocations

    [BufferAllocator.h] keeps [mCurrentMappedAddress], "current address for
    writing", beside the per-slot [mBaseAddress], and documents [map] as
    "return address to writeable memory, if this allocator is ready to
    write"; [stageData] calls [map] anew after every allocation.  The
    allocator below does what those comments say: its [allocate] is
    [BufferAllocator.allocate] and then points [mCurrentMappedAddress] at
    the block just handed out (mapped memory only); [map] and [getBuffer]
    are the header's. *)

Module CurrentAddress.

Import BufferAllocator.

Definition pointAt (s : t) (address : Z) : t :=
  {| mSettings := mSettings s; mAlignment := mAlignment s;
     mOffsetEnd := mOffsetEnd s; mBaseAddress := mBaseAddress s;
     mBuffer := mBuffer s; mDeviceMemory := mDeviceMemory s;
     mCurrentMappedAddress := address;
     mCurrentVirtualFrameIdx := mCurrentVirtualFrameIdx s |}.

Definition allocate (s : t) (byteCount_ offset : Z) : bool * Z * t :=
  match BufferAllocator.allocate s byteCount_ offset with
  | (true, offset', s') =>
      let slot := default Vk.nullptr (mBaseAddress s !! mCurrentVirtualFrameIdx s) in
      let address :=
        if slot =? Vk.nullptr then Vk.nullptr
        else slot + (offset' - slotBase (mSettings s) (mCurrentVirtualFrameIdx s)) in
      (true, offset', pointAt s' address)
  | failed => failed
  end.

Definition allocator : Allocator t :=
  Build_Allocator t allocate BufferAllocator.map BufferAllocator.getBuffer.

(* A staging allocator with settings [st], mapped at [base], with an active
   slot. *)
Definition ready (st : Settings) (base : Z) (s : t) : Prop :=
  mSettings s = st /\ mBaseAddress s = slotPointers st base /\
  (mCurrentVirtualFrameIdx s < frameCount st)%nat /\
  0 < mAlignment s /\ 0 < base /\ 0 <= size st.

(* The first device offset of the active slot not handed out yet. *)
Definition top (s : t) : Z :=
  slotBase (mSettings s) (mCurrentVirtualFrameIdx s) + default 0 (cursor s).

End CurrentAddress.

(** * Properties *)

(** ** 64-bit arithmetic *)

Module VkFacts.

Import Vk.

Lemma wrap64_range x : 0 <= wrap64 x < 2 ^ 64.
Proof. unfold wrap64. apply Z.mod_pos_bound. lia. Qed.

Lemma wrap64_small x : 0 <= x < 2 ^ 64 -> wrap64 x = x.
Proof. intros Hx. unfold wrap64. now apply Z.mod_small. Qed.

(* offset + size of a span computed as (end - offset) wraps back to end *)
Lemma wrap64_span_end a e : wrap64 (a + wrap64 (wrap64 e - a)) = wrap64 e.
Proof.
  unfold wrap64.
  rewrite Zplus_mod_idemp_r.
  replace (a + (e mod 2 ^ 64 - a)) with (e mod 2 ^ 64) by lia.
  apply Z.mod_mod. lia.
Qed.

Lemma wrap64_span_exact a e :
  0 <= a <= e -> e < 2 ^ 64 -> a + wrap64 (wrap64 e - a) = e.
Proof.
  intros Ha He.
  rewrite (wrap64_small e) by lia.
  rewrite wrap64_small by lia. lia.
Qed.

End VkFacts.

(** ** BufferAllocator *)

Module BufferAllocatorFacts.

Import BufferAllocator.

Section Rounding.

Variable a : Z.
Hypothesis a_pos : 0 < a.

Lemma roundUp_divide n : (a | roundUp a n).
Proof. unfold roundUp. apply Z.divide_factor_l. Qed.

Lemma roundUp_bounds n : n <= roundUp a n < n + a.
Proof.
  unfold roundUp.
  pose proof (Z.div_mod (n + a - 1) a ltac:(lia)) as Hdm.
  pose proof (Z.mod_pos_bound (n + a - 1) a a_pos) as Hm.
  lia.
Qed.

Lemma roundUp_positive n : 0 < n -> a <= roundUp a n.
Proof.
  intros Hn. unfold roundUp.
  assert (1 <= (n + a - 1) / a) by (apply Z.div_le_lower_bound; lia).
  nia.
Qed.

(* the rounded size is the least multiple of the alignment that holds n *)
Lemma roundUp_least n m : (a | m) -> n <= m -> roundUp a n <= m.
Proof.
  intros [k ->] Hle. unfold roundUp.
  assert ((n + a - 1) / a <= k); [|nia].
  apply Z.lt_succ_r, Z.div_lt_upper_bound; [lia|]. nia.
Qed.

End Rounding.

Lemma cursor_with_cursor s cs :
  cursor (with_cursor s cs) = cs !! mCurrentVirtualFrameIdx s.
Proof. reflexivity. Qed.

(* The two outcomes of allocate for a non-zero request on an allocator with
   an active cursor. *)
Lemma allocate_fail s n off0 cur :
  n <> 0 -> cursor s = Some cur ->
  roundUp (mAlignment s) n > slotSize (mSettings s) - cur ->
  allocate s n off0 = (false, off0, s).
Proof.
  intros Hn Hc Hgt. unfold allocate, cursor in *.
  destruct (Z.eqb_spec n 0) as [|_]; [done|].
  rewrite Hc.
  destruct (Z.gtb_spec (cur + roundUp (mAlignment s) n) (slotSize (mSettings s)));
    [done | lia].
Qed.

Lemma allocate_ok s n off0 cur :
  n <> 0 -> cursor s = Some cur ->
  roundUp (mAlignment s) n <= slotSize (mSettings s) - cur ->
  allocate s n off0 =
    (true,
     slotBase (mSettings s) (mCurrentVirtualFrameIdx s) + cur,
     with_cursor s
       (<[mCurrentVirtualFrameIdx s := cur + roundUp (mAlignment s) n]> (mOffsetEnd s))).
Proof.
  intros Hn Hc Hle. unfold allocate, cursor in *.
  destruct (Z.eqb_spec n 0) as [|_]; [done|].
  rewrite Hc.
  destruct (Z.gtb_spec (cur + roundUp (mAlignment s) n) (slotSize (mSettings s)));
    [lia | done].
Qed.

(* allocate never touches anything but the active cursor *)
Lemma allocate_frame s n off0 :
  let s' := (allocate s n off0).2 in
  mSettings s' = mSettings s /\ mAlignment s' = mAlignment s /\
  mBaseAddress s' = mBaseAddress s /\ mBuffer s' = mBuffer s /\
  mDeviceMemory s' = mDeviceMemory s /\
  mCurrentMappedAddress s' = mCurrentMappedAddress s /\
  mCurrentVirtualFrameIdx s' = mCurrentVirtualFrameIdx s /\
  length (mOffsetEnd s') = length (mOffsetEnd s).
Proof.
  unfold allocate.
  destruct (n =? 0); [done|].
  destruct (mOffsetEnd s !! mCurrentVirtualFrameIdx s) as [cur|]; [|done].
  destruct (_ >? _); [done|]. simpl.
  rewrite length_insert. done.
Qed.

(* a successful allocate, read backwards *)
Lemma allocate_true_inv s n off0 off s' :
  allocate s n off0 = (true, off, s') ->
  exists cur,
    n <> 0 /\ cursor s = Some cur /\
    roundUp (mAlignment s) n <= slotSize (mSettings s) - cur /\
    off = slotBase (mSettings s) (mCurrentVirtualFrameIdx s) + cur /\
    s' = with_cursor s
           (<[mCurrentVirtualFrameIdx s := cur + roundUp (mAlignment s) n]> (mOffsetEnd s)) /\
    cursor s' = Some (cur + roundUp (mAlignment s) n).
Proof.
  unfold allocate, cursor.
  destruct (Z.eqb_spec n 0) as [|Hn]; [done|].
  destruct (mOffsetEnd s !! mCurrentVirtualFrameIdx s) as [cur|] eqn:Hc; [|done].
  destruct (Z.gtb_spec (cur + roundUp (mAlignment s) n) (slotSize (mSettings s)));
    [done|].
  intros [= <- <-]. exists cur. repeat split; try done; try lia.
  simpl. apply list_lookup_insert_eq. by eapply lookup_lt_Some.
Qed.

(** C3 (as amended): for every allocator state with an active cursor and
    every non-zero request n, allocate(n) returns failure and leaves the
    offset argument and the whole allocator state unchanged when n rounded up
    to the alignment exceeds slot_size minus the cursor; otherwise it
    succeeds, returns slot base + cursor, and changes nothing but the active
    cursor, which advances by the rounded size (a multiple of the alignment
    that is at least n).  A zero-byte request is rejected without effect. *)
Theorem allocate_contract (s : t) (n off0 cur : Z) :
  0 < mAlignment s -> 0 < n -> cursor s = Some cur ->
  let r := roundUp (mAlignment s) n in
  let idx := mCurrentVirtualFrameIdx s in
  (n <= r /\ (mAlignment s | r)) /\
  (r > slotSize (mSettings s) - cur -> allocate s n off0 = (false, off0, s)) /\
  (r <= slotSize (mSettings s) - cur ->
     allocate s n off0 =
       (true, slotBase (mSettings s) idx + cur,
        with_cursor s (<[idx := cur + r]> (mOffsetEnd s))) /\
     cursor (allocate s n off0).2 = Some (cur + r)) /\
  allocate s 0 off0 = (false, off0, s).
Proof.
  intros Ha Hn Hc r idx. repeat split.
  - apply roundUp_bounds, Ha.
  - apply roundUp_divide.
  - intros Hgt. apply (allocate_fail s n off0 cur); [lia | done | done].
  - apply (allocate_ok s n off0 cur); [lia | done | done].
  - rewrite (allocate_ok s n off0 cur) by (done || lia). simpl.
    rewrite cursor_with_cursor. apply list_lookup_insert_eq.
    unfold cursor in Hc. by eapply lookup_lt_Some.
Qed.

Lemma allocate_contract_witness :
  allocate Scenario.target 100 0 =
    (true, 0, with_cursor Scenario.target [256; 0]) /\
  cursor (allocate Scenario.target 100 0).2 = Some 256.
Proof.
  pose proof (allocate_contract Scenario.target 100 0 0
                ltac:(vm_compute; reflexivity) ltac:(lia) ltac:(reflexivity))
    as (_ & _ & Hok & _).
  apply Hok. vm_compute. discriminate.
Defined.

(** C3 as stated fails at a zero-byte request: in the freshly set up target
    of scenario A the rounded size 0 does not exceed slot_size - cursor =
    512, and allocate(0) still returns failure. *)
Lemma allocate_zero_rejected :
  cursor Scenario.target = Some 0 /\
  ~ roundUp (mAlignment Scenario.target) 0
      > slotSize (mSettings Scenario.target) - 0 /\
  allocate Scenario.target 0 0 = (false, 0, Scenario.target).
Proof. repeat split. vm_compute. congruence. Qed.

(** *** Teardown and the specification's scenarios *)

Lemma reset_idempotent s : reset (reset s) = reset s.
Proof. reflexivity. Qed.

(* scenario C: an allocator that was torn down is inert *)
Lemma allocate_after_reset s n off0 : allocate (reset s) n off0 = (false, off0, reset s).
Proof. unfold allocate. simpl. by destruct (n =? 0). Qed.

(* scenario A: two 100-byte requests fill a 512-byte slot, a third fails *)
Example scenario_A :
  allocateAll Scenario.target [100; 100] =
    Some ([(0, 256); (256, 256)], with_cursor Scenario.target [512; 0]) /\
  allocateAll Scenario.target [100; 100; 100] = None.
Proof. split; reflexivity. Qed.

(** *** The invariant of a set-up allocator *)

Lemma invariant_setup st rep s0 :
  setup st (Some rep) = Some s0 -> invariant st rep s0.
Proof.
  intros [= <-]. unfold invariant; simpl.
  repeat split; try done.
  - apply length_replicate.
  - apply Forall_replicate. apply Z.divide_0_r.
Qed.

Lemma invariant_allocate st rep s n off0 :
  invariant st rep s -> invariant st rep (allocate s n off0).2.
Proof.
  intros (Hst & Hal & Hlen & Hcur & Hbase & Hidx & Hmap).
  pose proof (allocate_frame s n off0) as Hfr. simpl in Hfr.
  destruct Hfr as (F1 & F2 & F3 & _ & _ & F6 & F7 & F8).
  unfold invariant. rewrite F1, F2, F3, F6, F7, F8.
  repeat split; try done.
  destruct (allocate s n off0) as [[ok off] s'] eqn:Hcall.
  destruct ok; simpl.
  - apply allocate_true_inv in Hcall as (cur & _ & Hc & _ & _ & -> & _).
    simpl. apply Forall_insert; [done|].
    apply Z.divide_add_r.
    + unfold cursor in Hc. by eapply (Forall_lookup_1 _ _ _ _ Hcur).
    + rewrite Hal. apply roundUp_divide.
  - revert Hcall. unfold allocate.
    destruct (n =? 0); [by intros [= <- <-]|].
    destruct (mOffsetEnd s !! mCurrentVirtualFrameIdx s); [|by intros [= <- <-]].
    destruct (_ >? _); [by intros [= <- <-] | done].
Qed.

Lemma invariant_swap st rep s : invariant st rep s -> invariant st rep (swap s).
Proof.
  intros (Hst & Hal & Hlen & Hcur & Hbase & Hidx & Hmap).
  unfold invariant, swap; simpl. rewrite Hst, Hbase.
  repeat split; try done.
  - by rewrite length_insert.
  - apply Forall_insert; [done | apply Z.divide_0_r].
  - intros HF. apply Nat.mod_upper_bound. lia.
Qed.

Lemma invariant_free st rep s : invariant st rep s -> invariant st rep (free s).
Proof.
  intros (Hst & Hal & Hlen & Hcur & Hbase & Hidx & Hmap).
  unfold invariant, free; simpl.
  repeat split; try done.
  - by rewrite length_insert.
  - apply Forall_insert; [done | apply Z.divide_0_r].
Qed.

Lemma invariant_run st rep ops : forall s,
  invariant st rep s -> invariant st rep (run s ops).
Proof.
  induction ops as [|o ops IH]; intros s Hs; [done|].
  simpl. apply IH. destruct o; simpl.
  - by apply invariant_allocate.
  - by apply invariant_swap.
  - by apply invariant_free.
Qed.

(** *** Runs of successful allocations *)

Lemma contiguous_lower offs : forall lo,
  contiguous lo offs -> Forall (fun p => lo <= p.1) offs.
Proof.
  induction offs as [|[o r] rest IH]; intros lo Hc; [constructor|].
  destruct Hc as (-> & Hr & Hrest). constructor; [simpl; lia|].
  eapply Forall_impl; [apply (IH _ Hrest)|]. simpl. intros. lia.
Qed.

Lemma contiguous_pairwise offs : forall lo (i j : nat) oi ri oj rj,
  contiguous lo offs -> (i < j)%nat ->
  offs !! i = Some (oi, ri) -> offs !! j = Some (oj, rj) ->
  oi < oj /\ oi + ri <= oj.
Proof.
  induction offs as [|[o r] rest IH]; intros lo i j oi ri oj rj Hc Hij Hi Hj;
    [done|].
  destruct Hc as (-> & Hr & Hrest).
  destruct j as [|j]; [lia|]. simpl in Hj.
  destruct i as [|i]; simpl in Hi.
  - injection Hi as -> ->.
    pose proof (contiguous_lower _ _ Hrest) as Hlow.
    pose proof (Forall_lookup_1 _ _ _ _ Hlow Hj) as Hle. simpl in Hle. lia.
  - eapply (IH _ i j); eauto. lia.
Qed.

Lemma allocateAll_contiguous requests : forall s cur offs s',
  0 < mAlignment s -> Forall (Z.le 0) requests ->
  cursor s = Some cur -> (mAlignment s | cur) ->
  allocateAll s requests = Some (offs, s') ->
  let base := slotBase (mSettings s) (mCurrentVirtualFrameIdx s) in
  contiguous (base + cur) offs /\
  Forall (fun p => (mAlignment s | p.1 - base) /\ (mAlignment s | p.2)) offs.
Proof.
  induction requests as [|n rest IH]; intros s cur offs s' Ha Hnn Hc Hdiv Hall base.
  - injection Hall as <- <-. by split.
  - simpl in Hall.
    destruct (allocate s n 0) as [[ok off] s1] eqn:Hcall.
    destruct ok; [|done].
    destruct (allocateAll s1 rest) as [[offs1 s2]|] eqn:Hrest; [|done].
    injection Hall as <- <-.
    apply allocate_true_inv in Hcall
      as (cur' & Hn0 & Hc' & _ & -> & Hs1 & Hc1).
    assert (cur' = cur) as -> by congruence.
    apply Forall_cons in Hnn as [Hn Hnn'].
    assert (Hr : mAlignment s <= roundUp (mAlignment s) n)
      by (apply roundUp_positive; lia).
    assert (Hfr1 : mSettings s1 = mSettings s /\ mAlignment s1 = mAlignment s /\
                   mCurrentVirtualFrameIdx s1 = mCurrentVirtualFrameIdx s)
      by (rewrite Hs1; done).
    destruct Hfr1 as (E1 & E2 & E3).
    specialize (IH s1 (cur + roundUp (mAlignment s) n) offs1 s2).
    rewrite E1, E2, E3 in IH.
    destruct IH as [IHc IHa]; try done.
    { apply Z.divide_add_r; [done | apply roundUp_divide]. }
    split.
    + simpl. repeat split; [lia|].
      fold base in IHc |- *.
      by replace (base + cur + roundUp (mAlignment s) n)
        with (base + (cur + roundUp (mAlignment s) n)) by lia.
    + constructor; [|done]. simpl. fold base. split.
      * by replace (base + cur - base) with cur by lia.
      * apply roundUp_divide.
Qed.



(* Without the layout condition this model does not give aligned offsets in
   the later slots: 1000 bytes in two slots put slot 1 at offset 500. *)
Lemma allocate_unaligned_offset :
  allocateAll (swap Scenario.odd) [100] =
    Some ([(500, 256)], with_cursor (swap Scenario.odd) [0; 256]) /\
  mAlignment (swap Scenario.odd) = 256 /\
  ~ (256 | 500).
Proof.
  repeat split.
  intros [k Hk]. lia.
Qed.

(** *** Frame rotation *)

Lemma activate_setup st rep s0 :
  setup st (Some rep) = Some s0 -> activate s0 0 = s0.
Proof. by intros [= <-]. Qed.

Lemma swap_activate_setup st rep s0 (k : nat) :
  setup st (Some rep) = Some s0 ->
  swap (activate s0 (k mod frameCount st)) = activate s0 (S k mod frameCount st).
Proof.
  intros [= <-]. unfold swap, activate, with_cursor; simpl.
  replace ((k mod frameCount st + 1) mod frameCount st)%nat
    with (S k mod frameCount st)%nat.
  2:{ rewrite Nat.Div0.add_mod_idemp_l. f_equal. lia. }
  by rewrite insert_replicate.
Qed.

Lemma iter_swap_setup st rep s0 (k : nat) :
  setup st (Some rep) = Some s0 ->
  Nat.iter k swap s0 = activate s0 (k mod frameCount st).
Proof.
  intros Hsetup. induction k as [|k IH].
  - simpl. rewrite Nat.Div0.mod_0_l. symmetry. by eapply activate_setup.
  - simpl. rewrite IH. by eapply swap_activate_setup.
Qed.

Lemma invariant_iter_swap st rep s (k : nat) :
  invariant st rep s -> invariant st rep (Nat.iter k swap s).
Proof.
  intros Hs. induction k as [|k IH]; [done|]. simpl. by apply invariant_swap.
Qed.

(* after k swaps the index has moved k places and the slots passed on the
   way have their cursor at zero *)
Lemma iter_swap_visits st rep s (k : nat) :
  invariant st rep s -> (0 < frameCount st)%nat ->
  mCurrentVirtualFrameIdx (Nat.iter k swap s) =
    ((mCurrentVirtualFrameIdx s + k) mod frameCount st)%nat /\
  forall (m : nat), (1 <= m <= k)%nat ->
    mOffsetEnd (Nat.iter k swap s)
      !! ((mCurrentVirtualFrameIdx s + m) mod frameCount st)%nat = Some 0.
Proof.
  intros Hs HF. induction k as [|k [IHidx IHvis]].
  - split; [|intros; lia]. simpl.
    destruct Hs as (_ & _ & _ & _ & _ & Hidx & _).
    rewrite Nat.add_0_r, Nat.mod_small; [done | by apply Hidx].
  - pose proof (invariant_iter_swap st rep s k Hs)
      as (Hst & _ & Hlen & _).
    change (Nat.iter (S k) swap s) with (swap (Nat.iter k swap s)).
    set (sk := Nat.iter k swap s) in *.
    set (next := ((mCurrentVirtualFrameIdx s + S k) mod frameCount st)%nat).
    assert (Hidx' : mCurrentVirtualFrameIdx (swap sk) = next).
    { unfold swap; simpl. rewrite Hst, IHidx, Nat.Div0.add_mod_idemp_l.
      unfold next. f_equal. lia. }
    assert (Hcur : mOffsetEnd (swap sk) = <[next := 0]> (mOffsetEnd sk)).
    { unfold swap; simpl. rewrite Hst, IHidx, Nat.Div0.add_mod_idemp_l.
      unfold next. do 2 f_equal. lia. }
    split; [done|].
    intros m Hm. rewrite Hcur.
    assert (Hnext : (next < length (mOffsetEnd sk))%nat).
    { rewrite Hlen. apply Nat.mod_upper_bound. lia. }
    destruct (decide (m = S k)) as [->|Hne].
    + by apply list_lookup_insert_eq.
    + destruct (decide
        (next = ((mCurrentVirtualFrameIdx s + m) mod frameCount st)%nat))
        as [<-|Hother].
      * by apply list_lookup_insert_eq.
      * rewrite list_lookup_insert_ne by done. apply IHvis. lia.
Qed.

(* every slot lies at most F places after the active one *)
Lemma slot_within_cycle (F i j : nat) :
  (i < F)%nat -> (j < F)%nat ->
  exists m : nat, (1 <= m <= F)%nat /\ ((i + m) mod F)%nat = j.
Proof.
  intros Hi Hj.
  destruct (decide (i < j)%nat) as [Hlt|Hge].
  - exists (j - i)%nat. split; [lia|].
    replace (i + (j - i))%nat with j by lia. by apply Nat.mod_small.
  - exists (j + F - i)%nat. split; [lia|].
    replace (i + (j + F - i))%nat with (j + 1 * F)%nat by lia.
    rewrite Nat.Div0.mod_add. by apply Nat.mod_small.
Qed.

Lemma swap_cycle_from_any st rep s :
  invariant st rep s -> (0 < frameCount st)%nat ->
  mCurrentVirtualFrameIdx (Nat.iter (frameCount st) swap s)
    = mCurrentVirtualFrameIdx s /\
  mOffsetEnd (Nat.iter (frameCount st) swap s) = replicate (frameCount st) 0.
Proof.
  intros Hs HF.
  destruct (iter_swap_visits st rep s (frameCount st) Hs HF) as [Hidx Hvis].
  pose proof (invariant_iter_swap st rep s (frameCount st) Hs)
    as (_ & _ & Hlen & _).
  destruct Hs as (_ & _ & _ & _ & _ & Hi & _). specialize (Hi HF).
  split.
  - rewrite Hidx.
    replace (mCurrentVirtualFrameIdx s + frameCount st)%nat
      with (mCurrentVirtualFrameIdx s + 1 * frameCount st)%nat by lia.
    rewrite Nat.Div0.mod_add. by apply Nat.mod_small.
  - apply list_eq. intros j.
    destruct (decide (j < frameCount st)%nat) as [Hj|Hj].
    + destruct (slot_within_cycle _ _ j Hi Hj) as (m & Hm & <-).
      rewrite (Hvis m Hm). symmetry. apply lookup_replicate_2.
      apply Nat.mod_upper_bound. lia.
    + rewrite !lookup_ge_None_2; [done | rewrite length_replicate; lia | lia].
Qed.

(** C5: for every allocator set up with frame count F >= 1, F calls of swap
    with no allocation in between give back exactly the state setup left
    (active-frame index, every slot cursor and everything else); after k
    swaps the active-frame index is k mod F; each swap, from any state,
    advances it by one modulo F; and from any state reached later, F swaps
    bring the index back to where it was and every slot cursor to the zero
    it had after setup. *)
Theorem swap_full_cycle st rep s0 :
  (0 < frameCount st)%nat ->
  setup st (Some rep) = Some s0 ->
  Nat.iter (frameCount st) swap s0 = s0 /\
  (forall k : nat,
     mCurrentVirtualFrameIdx (Nat.iter k swap s0) = (k mod frameCount st)%nat /\
     mOffsetEnd (Nat.iter k swap s0) = mOffsetEnd s0) /\
  (forall s,
     mCurrentVirtualFrameIdx (swap s) =
       ((mCurrentVirtualFrameIdx s + 1) mod frameCount (mSettings s))%nat) /\
  (forall ops,
     mCurrentVirtualFrameIdx (Nat.iter (frameCount st) swap (run s0 ops))
       = mCurrentVirtualFrameIdx (run s0 ops) /\
     mOffsetEnd (Nat.iter (frameCount st) swap (run s0 ops)) = mOffsetEnd s0).
Proof.
  intros HF Hsetup. split; [|split; [|split]].
  - rewrite (iter_swap_setup st rep) by done.
    rewrite Nat.Div0.mod_same. by eapply activate_setup.
  - intros k. by rewrite (iter_swap_setup st rep).
  - done.
  - intros ops.
    pose proof (invariant_run st rep ops s0 (invariant_setup _ _ _ Hsetup)) as Hs.
    destruct (swap_cycle_from_any st rep _ Hs HF) as [Hidx Hcur].
    split; [done|]. rewrite Hcur. by injection Hsetup as <-.
Qed.

Lemma swap_full_cycle_witness :
  Nat.iter 2 swap Scenario.staging = Scenario.staging.
Proof.
  pose proof (swap_full_cycle Scenario.hostSettings Scenario.hostReply
                Scenario.staging ltac:(vm_compute; lia) ltac:(reflexivity))
    as [H _].
  exact H.
Defined.

(** *** map *)

Lemma lookup_slotPointers st base (i : nat) :
  (i < frameCount st)%nat ->
  slotPointers st base !! i = Some (base + slotBase st i).
Proof.
  intros Hi. unfold slotPointers.
  rewrite list_lookup_fmap, lookup_seq_lt by done. done.
Qed.

Lemma slotBase_nonneg st i : 0 <= size st -> 0 <= slotBase st i.
Proof.
  intros Hsz. unfold slotBase, slotSize.
  apply Z.mul_nonneg_nonneg; [lia|].
  destruct (frameCount st) as [|F]; [by rewrite Z.div_0_r|].
  apply Z.div_pos; lia.
Qed.

Lemma default_lookup_replicate (n i : nat) (x : Z) :
  default x (replicate n x !! i) = x.
Proof.
  destruct (replicate n x !! i) as [y|] eqn:Hl; [|done].
  by apply lookup_replicate in Hl as [-> _].
Qed.

(** C6: in every state a set-up allocator reaches through allocate, swap and
    free, whichever slot is active, map() succeeds with a non-null pointer
    (the mapped base pointer of the active slot) if and only if the
    reservation was set up with the host-visible memory property; for a
    reservation without it map() yields the null pointer and reports
    failure; in both cases the allocator state after map() is the state
    before it. *)
Theorem map_iff_host_visible st rep s0 ops :
  (0 < frameCount st)%nat -> 0 <= size st -> 0 < devMapped rep ->
  setup st (Some rep) = Some s0 ->
  let s := run s0 ops in
  exists pAddr,
    map s = (hostVisible st, pAddr, s) /\
    (hostVisible st = true ->
       pAddr <> Vk.nullptr /\
       pAddr = devMapped rep + slotBase st (mCurrentVirtualFrameIdx s)) /\
    (hostVisible st = false -> pAddr = Vk.nullptr).
Proof.
  intros HF Hsz Hbase Hsetup s.
  pose proof (invariant_run st rep ops s0 (invariant_setup _ _ _ Hsetup))
    as (_ & _ & _ & _ & _ & Hidx & Hmap).
  fold s in Hidx, Hmap. specialize (Hidx HF).
  exists (mCurrentMappedAddress s).
  unfold map, baseAddresses in *.
  pose proof (slotBase_nonneg st (mCurrentVirtualFrameIdx s) Hsz) as Hnn.
  destruct (hostVisible st).
  - rewrite lookup_slotPointers in Hmap by done. simpl in Hmap.
    unfold Vk.nullptr. repeat split; try done; try lia.
    destruct (Z.eqb_spec (mCurrentMappedAddress s) 0); [lia | done].
  - rewrite default_lookup_replicate in Hmap.
    rewrite Hmap. repeat split; done.
Qed.

Lemma map_iff_host_visible_witness :
  map (swap (allocate Scenario.staging 100 0).2) =
    (true, 4608, swap (allocate Scenario.staging 100 0).2) /\
  map (swap Scenario.target) = (false, 0, swap Scenario.target).
Proof.
  split.
  - destruct (map_iff_host_visible Scenario.hostSettings Scenario.hostReply
                Scenario.staging [Allocate 100; Swap]
                ltac:(vm_compute; lia) ltac:(vm_compute; discriminate)
                ltac:(reflexivity) ltac:(reflexivity))
      as (p & Hm & Hv & _).
    destruct (Hv ltac:(reflexivity)) as [_ Hp].
    rewrite Hp in Hm. exact Hm.
  - reflexivity.
Defined.

(** *** The active cursor under allocate *)

Lemma allocate_readyAt st i c s n off0 :
  readyAt st i c s -> 0 <= n ->
  exists c',
    readyAt st i c' (allocate s n off0).2 /\ c <= c' /\
    ((allocate s n off0).1.1 = true ->
     (allocate s n off0).1.2 = slotBase st i + c /\ c + n <= c').
Proof.
  intros (Hst & Hidx & Hc & Ha & Hin) Hn.
  destruct (allocate s n off0) as [[ok off] s'] eqn:Hcall. destruct ok.
  - apply allocate_true_inv in Hcall
      as (cur & _ & Hc' & Hfit & -> & -> & Hnew).
    assert (cur = c) as -> by congruence.
    pose proof (roundUp_bounds (mAlignment s) Ha n) as Hr.
    exists (c + roundUp (mAlignment s) n). simpl.
    rewrite Hst, Hidx in *.
    repeat split; try done; lia.
  - assert (s' = s) as ->.
    { revert Hcall. unfold allocate.
      destruct (n =? 0); [by intros [= _ <-]|].
      destruct (mOffsetEnd s !! mCurrentVirtualFrameIdx s); [|by intros [= _ <-]].
      destruct (_ >? _); [by intros [= _ <-] | done]. }
    exists c. simpl. repeat split; try done; lia.
Qed.

Lemma slot_end_in_reservation st (i : nat) :
  (i < frameCount st)%nat -> 0 <= size st ->
  slotBase st i + slotSize st <= size st.
Proof.
  intros Hi Hsz. unfold slotBase, slotSize.
  set (F := Z.of_nat (frameCount st)).
  assert (HF : 0 < F) by lia.
  pose proof (Z.mul_div_le (size st) F HF) as Hle.
  assert (0 <= size st / F) by (apply Z.div_pos; lia).
  assert (Z.of_nat i + 1 <= F) by lia.
  nia.
Qed.

End BufferAllocatorFacts.

(** ** RenderContext: stageData and storeDataCmd *)

Module RenderContextFacts.

Import Vk RenderContext.

Section WithAllocator.

Context {A : Type} `{Allocator A}.

Variable ctx : RenderContext.t.
Variable targetAllocator : nat.

Local Abbreviation stageItem := (stageItem ctx targetAllocator).
Local Abbreviation stageLoop := (stageLoop ctx targetAllocator).
Local Abbreviation stageData := (stageData ctx targetAllocator).
Local Abbreviation storeDataCmd := (storeDataCmd ctx targetAllocator).
Local Abbreviation alloc_error := (ofLogError "StageData: alloc error").

Lemma stageLoop_acc dataVec : forall regions (w : World A),
  stageLoop dataVec regions w =
    (regions ++ (stageLoop dataVec [] w).1, (stageLoop dataVec [] w).2).
Proof.
  induction dataVec as [|src rest IH]; intros regions w; simpl.
  - by rewrite app_nil_r.
  - destruct (stageItem src w) as [[region|] w'].
    + rewrite (IH (regions ++ [region])), (IH ([] ++ [region])).
      simpl. by rewrite <- app_assoc.
    + simpl. by rewrite app_nil_r.
Qed.

Lemma stageData_nil (w : World A) : stageData [] w = ([], w).
Proof. reflexivity. Qed.

Lemma stageData_cons_ok src rest (w w' : World A) region :
  stageItem src w = (Some region, w') ->
  stageData (src :: rest) w = (region :: (stageData rest w').1, (stageData rest w').2).
Proof.
  intros Hitem. unfold RenderContext.stageData. simpl. rewrite Hitem.
  by rewrite stageLoop_acc.
Qed.

Lemma stageData_cons_fail src rest (w w' : World A) :
  stageItem src w = (None, w') ->
  stageData (src :: rest) w = ([], alloc_error w').
Proof.
  intros Hitem. unfold RenderContext.stageData. simpl. by rewrite Hitem.
Qed.

Lemma stageData_length dataVec : forall w : World A,
  (length (stageData dataVec w).1 <= length dataVec)%nat.
Proof.
  induction dataVec as [|src rest IH]; intros w; [done|].
  destruct (stageItem src w) as [[region|] w'] eqn:Hitem.
  - rewrite (stageData_cons_ok _ _ _ _ _ Hitem). simpl.
    specialize (IH w'). lia.
  - rewrite (stageData_cons_fail _ _ _ _ Hitem). simpl. lia.
Qed.

(* the first element that fails ends the loop with what was staged so far *)
Lemma stageData_stops pre : forall bad rest (w w2 : World A),
  length (stageData pre w).1 = length pre ->
  stageItem bad (stageData pre w).2 = (None, w2) ->
  stageData (pre ++ bad :: rest) w = ((stageData pre w).1, alloc_error w2).
Proof.
  induction pre as [|src pre IH]; intros bad rest w w2 Hlen Hbad.
  - simpl in *. by rewrite (stageData_cons_fail _ _ _ _ Hbad).
  - destruct (stageItem src w) as [[region|] w'] eqn:Hitem.
    + rewrite (stageData_cons_ok _ _ _ _ _ Hitem) in Hlen, Hbad |- *.
      simpl in Hlen, Hbad.
      rewrite <- app_comm_cons.
      rewrite (stageData_cons_ok _ (pre ++ bad :: rest) _ _ _ Hitem).
      rewrite (IH bad rest w' w2) by (done || lia). done.
    + rewrite (stageData_cons_fail _ _ _ _ Hitem) in Hlen. done.
Qed.

(** C1 (as amended): for every item list and destination allocator, when the
    destination allocation, the staging allocation or the mapping fails for
    an item, the loop of stageData ends at that item: no later item is
    looked at, one error line is logged, and the copy-regions already
    produced for the earlier items are kept and returned, the returned vector
    being the only result (there is no separate failure value). *)
Theorem stageData_returns_staged_prefix pre bad rest (w : World A) :
  length (stageData pre w).1 = length pre ->
  (stageItem bad (stageData pre w).2).1 = None ->
  (stageData (pre ++ bad :: rest) w).1 = (stageData pre w).1 /\
  length (stageData (pre ++ bad :: rest) w).1 = length pre /\
  errorLog (stageData (pre ++ bad :: rest) w).2 =
    errorLog (stageItem bad (stageData pre w).2).2 ++ ["StageData: alloc error"%string] /\
  allocators (stageData (pre ++ bad :: rest) w).2 =
    allocators (stageItem bad (stageData pre w).2).2 /\
  hostWrites (stageData (pre ++ bad :: rest) w).2 =
    hostWrites (stageItem bad (stageData pre w).2).2.
Proof.
  intros Hlen Hbad.
  destruct (stageItem bad (stageData pre w).2) as [r w2] eqn:Hitem.
  simpl in Hbad. subst r.
  rewrite (stageData_stops pre bad rest w w2 Hlen Hitem). simpl.
  repeat split. done.
Qed.

(* every region carries the byte count of the element it was staged for *)
Lemma stageItem_size src (w w' : World A) region :
  stageItem src w = (Some region, w') -> BufferCopy.size region = byteSize src.
Proof.
  unfold RenderContext.stageItem.
  destruct (callAllocate _ _ _ w) as [[ok1 dstOff] w1]. destruct ok1; [|done].
  destruct (callAllocate _ _ _ w1) as [[ok2 srcOff] w2]. destruct ok2; [|done].
  destruct (callMap _ w2) as [[ok3 pData] w3]. destruct ok3; [|done].
  by intros [= <- _].
Qed.

Lemma stageData_sizes dataVec : forall (w : World A) (i : nat) region,
  (stageData dataVec w).1 !! i = Some region ->
  exists src, dataVec !! i = Some src /\ BufferCopy.size region = byteSize src.
Proof.
  induction dataVec as [|src rest IH]; intros w i region Hi; [done|].
  destruct (stageItem src w) as [[r|] w'] eqn:Hitem.
  - rewrite (stageData_cons_ok _ _ _ _ _ Hitem) in Hi. simpl in Hi.
    destruct i as [|i]; simpl in Hi.
    + injection Hi as ->. exists src. split; [done|]. by eapply stageItem_size.
    + by apply (IH w').
  - by rewrite (stageData_cons_fail _ _ _ _ Hitem) in Hi.
Qed.

(** *** The descriptor loop *)

Lemma describeFrom_done targetBuffer copyRegions dataVec (n : nat) :
  forall (i : nat) resultBuffers,
  (i + n <= length copyRegions)%nat ->
  (length copyRegions <= length dataVec)%nat ->
  describeFrom targetBuffer copyRegions dataVec i n resultBuffers =
    Done (resultBuffers ++
          describe targetBuffer (take n (drop i copyRegions)) (drop i dataVec)).
Proof.
  induction n as [|n IH]; intros i resultBuffers Hin Hlen; simpl.
  - by rewrite app_nil_r.
  - destruct (lookup_lt_is_Some_2 copyRegions i ltac:(lia)) as [region Hr].
    destruct (lookup_lt_is_Some_2 dataVec i ltac:(lia)) as [srcData Hd].
    rewrite Hr, Hd, IH by lia.
    rewrite (drop_S _ _ _ Hr), (drop_S _ _ _ Hd). simpl.
    by rewrite <- app_assoc.
Qed.

Lemma describeFrom_all targetBuffer copyRegions dataVec :
  (length copyRegions <= length dataVec)%nat ->
  describeFrom targetBuffer copyRegions dataVec 0 (length copyRegions) [] =
    Done (describe targetBuffer copyRegions dataVec).
Proof.
  intros Hlen. rewrite describeFrom_done by (done || lia).
  simpl. by rewrite !drop_0, firstn_all.
Qed.

Lemma describe_lookup targetBuffer copyRegions dataVec (i : nat) region srcData :
  copyRegions !! i = Some region -> dataVec !! i = Some srcData ->
  describe targetBuffer copyRegions dataVec !! i =
    Some {| BufferRegion.buffer := targetBuffer;
            BufferRegion.numElements := TransferSrcData.numElements srcData;
            BufferRegion.offset := BufferCopy.dstOffset region;
            BufferRegion.range := BufferCopy.size region |}.
Proof.
  intros Hr Hd. unfold describe. rewrite lookup_zip_with, Hr. simpl. by rewrite Hd.
Qed.

(** *** storeDataCmd *)

(* The command buffer storeDataCmd records for the staged regions. *)
Lemma storeDataCmd_done dataVec (w : World A) frame front back :
  mVirtualFrames ctx !! mCurrentVirtualFrame ctx = Some frame ->
  head (stageData dataVec w).1 = Some front ->
  last (stageData dataVec w).1 = Some back ->
  let copyRegions := (stageData dataVec w).1 in
  let w1 := (stageData dataVec w).2 in
  let targetBuffer := getBuffer (allocators w1 targetAllocator) in
  let cmd :=
    {| cbPool := commandPool frame; cbLevel := ePrimary;
       cbCommands :=
         [CmdBegin eOneTimeSubmit;
          CmdCopyBuffer (getBuffer (allocators w1 (mTransientMemory ctx)))
            targetBuffer copyRegions;
          CmdPipelineBarrier eTopOfPipe eTopOfPipe 0 0
            [transferBarrier targetBuffer (BufferCopy.dstOffset front)
               (wrap64 (wrap64 (BufferCopy.dstOffset back + BufferCopy.size back)
                        - BufferCopy.dstOffset front))] 0;
          CmdEnd] |} in
  exists ctx',
    storeDataCmd dataVec w = Done (describe targetBuffer copyRegions dataVec, ctx', w1) /\
    lastSubmitted ctx' = Some cmd /\
    mCurrentVirtualFrame ctx' = mCurrentVirtualFrame ctx /\
    mTransientMemory ctx' = mTransientMemory ctx.
Proof.
  intros Hframe Hfront Hback copyRegions w1 targetBuffer cmd.
  pose proof (stageData_length dataVec w) as Hlen.
  unfold RenderContext.storeDataCmd.
  subst copyRegions w1 targetBuffer cmd.
  destruct (stageData dataVec w) as [copyRegions w1]. simpl in *.
  rewrite describeFrom_all, Hfront, Hback by done.
  unfold allocateTransientCommandBuffer, submit. rewrite Hframe. simpl.
  eexists. split; [reflexivity|].
  unfold lastSubmitted. simpl.
  rewrite list_lookup_insert_eq by (by eapply lookup_lt_Some).
  simpl. by rewrite last_snoc.
Qed.

(** C2: for every non-empty sequence of staged copy-regions (and a context
    whose current virtual frame exists), storeDataCmd records exactly one
    buffer memory barrier; it is on the destination allocator's buffer, has
    source access mask transfer-write, destination access mask shader-read
    and both queue-family indices VK_QUEUE_FAMILY_IGNORED, starts at the
    first region's dstOffset and, in 64-bit arithmetic, ends at the last
    region's dstOffset + size; when that end does not wrap and is not below
    the start, offset + size is exactly lastRegion.dstOffset +
    lastRegion.size. *)
Theorem storeDataCmd_single_barrier dataVec (w : World A) frame front back :
  mVirtualFrames ctx !! mCurrentVirtualFrame ctx = Some frame ->
  head (stageData dataVec w).1 = Some front ->
  last (stageData dataVec w).1 = Some back ->
  exists result ctx' cmd b,
    storeDataCmd dataVec w = Done (result, ctx', (stageData dataVec w).2) /\
    lastSubmitted ctx' = Some cmd /\
    barriersOf cmd = [b] /\
    BufferMemoryBarrier.buffer b =
      getBuffer (allocators (stageData dataVec w).2 targetAllocator) /\
    BufferMemoryBarrier.srcAccessMask b = eTransferWrite /\
    BufferMemoryBarrier.dstAccessMask b = eShaderRead /\
    BufferMemoryBarrier.srcQueueFamilyIndex b = VK_QUEUE_FAMILY_IGNORED /\
    BufferMemoryBarrier.dstQueueFamilyIndex b = VK_QUEUE_FAMILY_IGNORED /\
    BufferMemoryBarrier.offset b = BufferCopy.dstOffset front /\
    wrap64 (BufferMemoryBarrier.offset b + BufferMemoryBarrier.size b) =
      wrap64 (BufferCopy.dstOffset back + BufferCopy.size back) /\
    (0 <= BufferCopy.dstOffset front <= BufferCopy.dstOffset back + BufferCopy.size back ->
     BufferCopy.dstOffset back + BufferCopy.size back < 2 ^ 64 ->
     BufferMemoryBarrier.offset b + BufferMemoryBarrier.size b =
       BufferCopy.dstOffset back + BufferCopy.size back).
Proof.
  intros Hframe Hfront Hback.
  destruct (storeDataCmd_done dataVec w frame front back Hframe Hfront Hback)
    as (ctx' & Hrun & Hlast & _).
  do 4 eexists. split; [exact Hrun|]. split; [exact Hlast|].
  split; [reflexivity|]. simpl. repeat split.
  - apply VkFacts.wrap64_span_end.
  - intros Hle Hlt. by apply VkFacts.wrap64_span_exact.
Qed.

(** C7 (as amended): for every non-empty item list whose items all stage
    successfully (and a context whose current virtual frame exists),
    storeDataCmd returns one descriptor per item; the i-th descriptor's
    buffer is the destination allocator's buffer, its offset the i-th
    copy-region's dstOffset, its range the i-th copy-region's size, which is
    the item's bytes-per-element times its element count in 64-bit
    arithmetic (the plain product when that is below 2^64), and its element
    count the i-th item's element count. *)
Theorem storeDataCmd_descriptors dataVec (w : World A) frame :
  mVirtualFrames ctx !! mCurrentVirtualFrame ctx = Some frame ->
  dataVec <> [] ->
  length (stageData dataVec w).1 = length dataVec ->
  exists result ctx',
    storeDataCmd dataVec w = Done (result, ctx', (stageData dataVec w).2) /\
    length result = length dataVec /\
    forall (i : nat) srcData, dataVec !! i = Some srcData ->
      exists region,
        (stageData dataVec w).1 !! i = Some region /\
        BufferCopy.size region =
          wrap64 (TransferSrcData.numBytesPerElement srcData
                  * TransferSrcData.numElements srcData) /\
        (0 <= TransferSrcData.numElements srcData
              * TransferSrcData.numBytesPerElement srcData < 2 ^ 64 ->
         BufferCopy.size region =
           TransferSrcData.numElements srcData
           * TransferSrcData.numBytesPerElement srcData) /\
        result !! i =
          Some {| BufferRegion.buffer :=
                    getBuffer (allocators (stageData dataVec w).2 targetAllocator);
                  BufferRegion.offset := BufferCopy.dstOffset region;
                  BufferRegion.range := BufferCopy.size region;
                  BufferRegion.numElements := TransferSrcData.numElements srcData |}.
Proof.
  intros Hframe Hne Hall.
  assert (Hne' : (stageData dataVec w).1 <> []).
  { intros Hnil. rewrite Hnil in Hall. by destruct dataVec. }
  destruct (proj2 (head_is_Some _) Hne') as [front Hfront].
  destruct (proj2 (last_is_Some _) Hne') as [back Hback].
  destruct (storeDataCmd_done dataVec w frame front back Hframe Hfront Hback)
    as (ctx' & Hrun & _).
  do 2 eexists. split; [exact Hrun|]. split.
  - unfold describe. rewrite length_zip_with. lia.
  - intros i srcData Hi.
    destruct (lookup_lt_is_Some_2 (stageData dataVec w).1 i) as [region Hr].
    { rewrite Hall. by eapply lookup_lt_Some. }
    exists region. split; [done|].
    destruct (stageData_sizes dataVec w i region Hr) as (src' & Hsrc' & Hsz).
    assert (src' = srcData) as -> by congruence.
    split; [exact Hsz|]. split.
    { intros Hfit. rewrite Hsz. unfold byteSize.
      rewrite VkFacts.wrap64_small; lia. }
    by rewrite (describe_lookup _ _ _ i region srcData).
Qed.

Lemma stageData_empty_iff dataVec (w : World A) :
  (stageData dataVec w).1 = [] <->
  dataVec = [] \/
  exists src rest, dataVec = src :: rest /\ (stageItem src w).1 = None.
Proof.
  destruct dataVec as [|src rest].
  - split; [by left | done].
  - destruct (stageItem src w) as [[region|] w'] eqn:Hitem.
    + rewrite (stageData_cons_ok _ _ _ _ _ Hitem). simpl. split; [done|].
      intros [|(src' & rest' & [= <- <-] & Hnone)]; [done|].
      rewrite Hitem in Hnone. done.
    + rewrite (stageData_cons_fail _ _ _ _ Hitem). simpl. split; [|done].
      intros _. right. exists src, rest. by rewrite Hitem.
Qed.

(** C9: storeDataCmd reads front() and back() of the copy-region list of
    stageData without a check.  That list is empty exactly when the item
    list is empty or the first item fails to stage, and then storeDataCmd
    has undefined behaviour; when at least one item was staged (and the
    current virtual frame exists) it returns normally. *)
Theorem storeDataCmd_needs_staged_region dataVec (w : World A) :
  ((stageData dataVec w).1 = [] <->
   dataVec = [] \/
   exists src rest, dataVec = src :: rest /\ (stageItem src w).1 = None) /\
  ((stageData dataVec w).1 = [] -> storeDataCmd dataVec w = Undefined) /\
  ((stageData dataVec w).1 <> [] ->
   is_Some (mVirtualFrames ctx !! mCurrentVirtualFrame ctx) ->
   exists result, storeDataCmd dataVec w = Done result).
Proof.
  split; [apply stageData_empty_iff|]. split.
  - intros Hnil. unfold RenderContext.storeDataCmd.
    destruct (stageData dataVec w) as [copyRegions w1]. simpl in Hnil.
    by subst copyRegions.
  - intros Hne [frame Hframe].
    destruct (proj2 (head_is_Some _) Hne) as [front Hfront].
    destruct (proj2 (last_is_Some _) Hne) as [back Hback].
    destruct (storeDataCmd_done dataVec w frame front back Hframe Hfront Hback)
      as (ctx' & Hrun & _).
    eexists. exact Hrun.
Qed.

(** *** What a call through an allocator pointer touches *)

Lemma callAllocate_allocators p n off (w : World A) q :
  allocators (callAllocate p n off w).2 q =
    if Nat.eqb q p then (allocate (allocators w p) n off).2 else allocators w q.
Proof.
  unfold callAllocate. by destruct (allocate (allocators w p) n off) as [[ok o] a].
Qed.

Lemma callAllocate_hostWrites p n off (w : World A) :
  hostWrites (callAllocate p n off w).2 = hostWrites w.
Proof.
  unfold callAllocate. by destruct (allocate (allocators w p) n off) as [[ok o] a].
Qed.

Lemma callAllocate_result p n off (w : World A) :
  (callAllocate p n off w).1 = (allocate (allocators w p) n off).1.
Proof.
  unfold callAllocate. by destruct (allocate (allocators w p) n off) as [[ok o] a].
Qed.

Lemma callMap_allocators p (w : World A) q :
  allocators (callMap p w).2 q =
    if Nat.eqb q p then (map (allocators w p)).2 else allocators w q.
Proof. unfold callMap. by destruct (map (allocators w p)) as [[ok o] a]. Qed.

Lemma callMap_hostWrites p (w : World A) : hostWrites (callMap p w).2 = hostWrites w.
Proof. unfold callMap. by destruct (map (allocators w p)) as [[ok o] a]. Qed.

Lemma callMap_result p (w : World A) : (callMap p w).1 = (map (allocators w p)).1.
Proof. unfold callMap. by destruct (map (allocators w p)) as [[ok o] a]. Qed.

(* For every item the loop body stages, the destination and then the
   staging allocation of the item's byte count succeed and give the region's
   dstOffset and srcOffset, and exactly one memcpy of that many bytes is made
   from the item's data pointer to the pointer the staging allocator's map()
   yields right after the staging allocation. *)
Lemma stageItem_memcpy_destination src (w : World A) region :
  (stageItem src w).1 = Some region ->
  exists wA wB pData,
    callAllocate targetAllocator (byteSize src) 0 w
      = (true, BufferCopy.dstOffset region, wA) /\
    callAllocate (mTransientMemory ctx) (byteSize src) 0 wA
      = (true, BufferCopy.srcOffset region, wB) /\
    (map (allocators wB (mTransientMemory ctx))).1 = (true, pData) /\
    BufferCopy.size region = byteSize src /\
    hostWrites (stageItem src w).2 =
      hostWrites w ++ [mkMemcpy pData (TransferSrcData.pData src) (byteSize src)].
Proof.
  unfold RenderContext.stageItem.
  destruct (callAllocate targetAllocator _ _ w) as [[ok1 dstOff] wA] eqn:H1.
  destruct ok1; [|done].
  destruct (callAllocate (mTransientMemory ctx) _ _ wA) as [[ok2 srcOff] wB] eqn:H2.
  destruct ok2; [|done].
  destruct (callMap (mTransientMemory ctx) wB) as [[ok3 pData] wC] eqn:H3.
  destruct ok3; [|done].
  pose proof (callMap_result (mTransientMemory ctx) wB) as Hmap.
  rewrite H3 in Hmap.
  simpl. intros [= <-]. simpl.
  exists wA, wB, pData.
  split; [done|]. split; [done|]. split; [symmetry; exact Hmap|]. split; [done|].
  - pose proof (callMap_hostWrites (mTransientMemory ctx) wB) as E3.
    pose proof (callAllocate_hostWrites (mTransientMemory ctx) (byteSize src) 0 wA) as E2.
    pose proof (callAllocate_hostWrites targetAllocator (byteSize src) 0 w) as E1.
    rewrite H3 in E3. rewrite H2 in E2. rewrite H1 in E1. simpl in *.
    congruence.
Qed.

(* The world stageItem leaves when the destination allocation succeeded and
   the staging allocation or the mapping did not. *)
Lemma stageItem_staging_fails src (w wA : World A) dstOffset :
  callAllocate targetAllocator (byteSize src) 0 w = (true, dstOffset, wA) ->
  (callAllocate (mTransientMemory ctx) (byteSize src) 0 wA).1.1 = false \/
  (callMap (mTransientMemory ctx)
     (callAllocate (mTransientMemory ctx) (byteSize src) 0 wA).2).1.1 = false ->
  (stageItem src w).1 = None /\
  (targetAllocator <> mTransientMemory ctx ->
   allocators (stageItem src w).2 targetAllocator = allocators wA targetAllocator).
Proof.
  intros H1 Hfail. unfold RenderContext.stageItem. rewrite H1.
  pose proof (callAllocate_allocators (mTransientMemory ctx) (byteSize src) 0 wA
                targetAllocator) as E2.
  revert Hfail E2.
  destruct (callAllocate (mTransientMemory ctx) _ _ wA) as [[ok2 srcOff] wB].
  pose proof (callMap_allocators (mTransientMemory ctx) wB targetAllocator) as E3.
  revert E3. simpl.
  destruct (callMap (mTransientMemory ctx) wB) as [[ok3 pData] wC].
  simpl. intros E3 Hfail E2.
  assert (Hne : targetAllocator <> mTransientMemory ctx ->
                Nat.eqb targetAllocator (mTransientMemory ctx) = false)
    by (intros; by apply Nat.eqb_neq).
  destruct ok2; [destruct ok3|]; simpl.
  - by destruct Hfail.
  - split; [done|]. intros Hd. rewrite (Hne Hd) in E2, E3. congruence.
  - split; [done|]. intros Hd. rewrite (Hne Hd) in E2. congruence.
Qed.

(** C10: in stageData the destination allocation of an item comes before
    its staging allocation, and nothing undoes it: when the destination
    allocate succeeds and the staging allocate or the map then fails, no
    copy-region is produced for the item (the batch ends with the regions of
    the earlier items), and the destination allocator, an object distinct
    from the staging allocator, is left in the state its successful allocate
    produced. *)
Theorem stageData_destination_stays_advanced pre bad rest (w wA : World A) dstOffset :
  targetAllocator <> mTransientMemory ctx ->
  length (stageData pre w).1 = length pre ->
  callAllocate targetAllocator (byteSize bad) 0 (stageData pre w).2
    = (true, dstOffset, wA) ->
  (callAllocate (mTransientMemory ctx) (byteSize bad) 0 wA).1.1 = false \/
  (callMap (mTransientMemory ctx)
     (callAllocate (mTransientMemory ctx) (byteSize bad) 0 wA).2).1.1 = false ->
  (stageData (pre ++ bad :: rest) w).1 = (stageData pre w).1 /\
  length (stageData (pre ++ bad :: rest) w).1 = length pre /\
  allocators (stageData (pre ++ bad :: rest) w).2 targetAllocator =
    (allocate (allocators (stageData pre w).2 targetAllocator) (byteSize bad) 0).2.
Proof.
  intros Hd Hlen H1 Hfail.
  destruct (stageItem_staging_fails bad _ wA dstOffset H1 Hfail) as [Hnone Hkeep].
  specialize (Hkeep Hd).
  destruct (stageItem bad (stageData pre w).2) as [r w2] eqn:Hitem.
  simpl in Hnone, Hkeep. subst r.
  rewrite (stageData_stops pre bad rest w w2 Hlen Hitem). simpl.
  repeat split; [done|].
  rewrite Hkeep.
  pose proof (callAllocate_allocators targetAllocator (byteSize bad) 0
                (stageData pre w).2 targetAllocator) as E1.
  rewrite H1, Nat.eqb_refl in E1. exact E1.
Qed.

End WithAllocator.

(** C1 as stated fails: the second element asks for a whole slot of the
    target, whose allocate fails after the first element took 256 bytes, and
    stageData still returns the region of the first element. *)
Lemma stageData_keeps_partial_regions :
  let staged := stageData Scenario.context 1
                  [Scenario.vertices; Scenario.texels] Scenario.world in
  (callAllocate 1 (byteSize Scenario.texels) 0
     (stageData Scenario.context 1 [Scenario.vertices] Scenario.world).2).1.1 = false /\
  staged.1 = [BufferCopy.mk 0 0 100] /\
  errorLog staged.2 = ["StageData: alloc error"%string].
Proof. repeat split. Qed.

Lemma stageData_returns_staged_prefix_witness :
  (stageData Scenario.context 1
     ([Scenario.vertices] ++ Scenario.texels :: [Scenario.indices]) Scenario.world).1
  = [BufferCopy.mk 0 0 100].
Proof.
  refine (proj1 (stageData_returns_staged_prefix Scenario.context 1
                   [Scenario.vertices] Scenario.texels [Scenario.indices]
                   Scenario.world _ _)); reflexivity.
Defined.

Lemma storeDataCmd_single_barrier_witness :
  exists result ctx' cmd b,
    storeDataCmd Scenario.context 1 [Scenario.vertices; Scenario.indices] Scenario.world
      = Done (result, ctx',
              (stageData Scenario.context 1
                 [Scenario.vertices; Scenario.indices] Scenario.world).2) /\
    lastSubmitted ctx' = Some cmd /\
    barriersOf cmd = [b] /\
    BufferMemoryBarrier.offset b = 0 /\
    BufferMemoryBarrier.offset b + BufferMemoryBarrier.size b = 306.
Proof.
  destruct (storeDataCmd_single_barrier (H := BufferAllocator_Allocator)
              Scenario.context 1
              [Scenario.vertices; Scenario.indices] Scenario.world
              (mkVirtualFrame 31 []) (BufferCopy.mk 0 0 100) (BufferCopy.mk 256 256 50)
              eq_refl eq_refl eq_refl)
    as (result & ctx' & cmd & b & Hrun & Hlast & Hone & _ & _ & _ & _ & _ & Hoff & _ & Hend).
  exists result, ctx', cmd, b.
  split; [exact Hrun|]. split; [exact Hlast|]. split; [exact Hone|].
  split; [exact Hoff|].
  apply Hend; simpl; lia.
Defined.

Lemma storeDataCmd_descriptors_witness :
  exists result ctx',
    storeDataCmd Scenario.context 1 [Scenario.vertices; Scenario.indices] Scenario.world
      = Done (result, ctx',
              (stageData Scenario.context 1
                 [Scenario.vertices; Scenario.indices] Scenario.world).2) /\
    length result = 2%nat.
Proof.
  destruct (storeDataCmd_descriptors (H := BufferAllocator_Allocator)
              Scenario.context 1
              [Scenario.vertices; Scenario.indices] Scenario.world
              (mkVirtualFrame 31 []) eq_refl ltac:(discriminate) eq_refl)
    as (result & ctx' & Hrun & Hlen & _).
  exists result, ctx'. split; [exact Hrun | exact Hlen].
Defined.

(** C7 as stated fails for the empty item list: every one of its (zero) items
    stages successfully, and storeDataCmd has undefined behaviour instead of
    returning an empty descriptor list. *)
Lemma storeDataCmd_empty_list_undefined :
  length (stageData Scenario.context 1 [] Scenario.world).1
    = length (@nil TransferSrcData.t) /\
  storeDataCmd Scenario.context 1 [] Scenario.world = Undefined.
Proof. split; reflexivity. Qed.

Lemma storeDataCmd_needs_staged_region_witness :
  storeDataCmd Scenario.context 1 [Scenario.texels; Scenario.vertices]
    (stageData Scenario.context 1 [Scenario.texels] Scenario.world).2 = Undefined.
Proof.
  refine (proj1 (proj2 (storeDataCmd_needs_staged_region
                          (H := BufferAllocator_Allocator) Scenario.context 1
                          [Scenario.texels; Scenario.vertices]
                          (stageData Scenario.context 1 [Scenario.texels]
                             Scenario.world).2)) _).
  reflexivity.
Defined.

Lemma stageItem_memcpy_destination_witness :
  hostWrites (stageItem Scenario.context 1 Scenario.vertices Scenario.world).2 =
    [mkMemcpy 4096 1000 100].
Proof.
  destruct (stageItem_memcpy_destination (H := BufferAllocator_Allocator)
              Scenario.context 1 Scenario.vertices
              Scenario.world (BufferCopy.mk 0 0 100) eq_refl)
    as (wA & wB & pData & HA & HB & Hmap & _ & Hwrites).
  rewrite Hwrites. simpl. f_equal. f_equal.
  injection HA as <-. injection HB as <-.
  injection Hmap as <-. reflexivity.
Defined.

(* With an allocator whose allocate leaves mCurrentMappedAddress at the
   base pointer of the active slot, stageData copies every item of a batch
   to that one address: what map() serves after an allocation decides where
   the bytes land. *)
Lemma stageData_writes_share_pointer :
  let staged := stageData Scenario.context 1
                  [Scenario.vertices; Scenario.indices] Scenario.world in
  staged.1 = [BufferCopy.mk 0 0 100; BufferCopy.mk 256 256 50] /\
  hostWrites staged.2 = [mkMemcpy 4096 1000 100; mkMemcpy 4096 2000 50] /\
  4096 <> BufferAllocator.devMapped Scenario.hostReply + 256.
Proof. repeat split. simpl. lia. Qed.

Lemma stageData_destination_stays_advanced_witness :
  BufferAllocator.cursor
    (allocators (stageData Scenario.context 1
                   ([Scenario.vertices] ++ Scenario.texels :: [Scenario.indices])
                   Scenario.worldLarge).2 1%nat)
  = Some 768.
Proof.
  pose proof (stageData_destination_stays_advanced
                (H := BufferAllocator_Allocator) Scenario.context 1
                [Scenario.vertices] Scenario.texels [Scenario.indices]
                Scenario.worldLarge
                (callAllocate 1 (byteSize Scenario.texels) 0
                   (stageData Scenario.context 1 [Scenario.vertices]
                      Scenario.worldLarge).2).2
                256
                ltac:(discriminate) eq_refl eq_refl (or_introl eq_refl))
    as (_ & _ & Hstate).
  rewrite Hstate. reflexivity.
Defined.

(** *** With BufferAllocator on both sides *)

(* allocate never moves the pointer map() serves, so every item staged
   between two swaps is copied to the same address *)
Lemma map_after_allocate (s : BufferAllocator.t) n off0 :
  (map (allocate s n off0).2).1.2 = BufferAllocator.mCurrentMappedAddress s.
Proof.
  pose proof (BufferAllocatorFacts.allocate_frame s n off0)
    as (_ & _ & _ & _ & _ & Hmapped & _).
  simpl in *. exact Hmapped.
Qed.

(* a successful destination allocate moves the cursor by the rounded size *)
Lemma destination_cursor_advanced (s : BufferAllocator.t) n off0 cur :
  BufferAllocator.cursor s = Some cur ->
  (allocate s n off0).1.1 = true ->
  BufferAllocator.cursor (allocate s n off0).2 =
    Some (cur + BufferAllocator.roundUp (BufferAllocator.mAlignment s) n).
Proof.
  intros Hc Hok. simpl in *.
  destruct (BufferAllocator.allocate s n off0) as [[ok off] s'] eqn:Hcall.
  simpl in Hok. subst ok.
  apply BufferAllocatorFacts.allocate_true_inv in Hcall
    as (cur' & _ & Hc' & _ & _ & _ & Hnew).
  simpl. congruence.
Qed.

Section TargetIsBufferAllocator.

Variable ctx : RenderContext.t.
Variable targetAllocator : nat.
Variable st : BufferAllocator.Settings.
Variable i : nat.

Local Abbreviation readyAt c w :=
  (BufferAllocator.readyAt st i c (allocators w targetAllocator)).
Local Abbreviation base := (BufferAllocator.slotBase st i).

(* any allocate through a pointer leaves the target ready, its cursor no
   lower than before *)
Lemma callAllocate_readyAt p n off (w : World BufferAllocator.t) c :
  readyAt c w -> 0 <= n ->
  exists c', readyAt c' (callAllocate p n off w).2 /\ c <= c'.
Proof.
  intros Hr Hn. rewrite callAllocate_allocators.
  destruct (Nat.eqb_spec targetAllocator p) as [<-|_].
  - destruct (BufferAllocatorFacts.allocate_readyAt st i c _ n off Hr Hn)
      as (c' & Hr' & Hle & _).
    by exists c'.
  - exists c. split; [done | lia].
Qed.

Lemma callMap_readyAt p (w : World BufferAllocator.t) c :
  readyAt c w -> readyAt c (callMap p w).2.
Proof.
  intros Hr. rewrite callMap_allocators.
  by destruct (Nat.eqb_spec targetAllocator p) as [<-|_].
Qed.

Lemma stageItem_readyAt src (w : World BufferAllocator.t) c :
  readyAt c w ->
  exists c',
    readyAt c' (stageItem ctx targetAllocator src w).2 /\ c <= c' /\
    forall region,
      (stageItem ctx targetAllocator src w).1 = Some region ->
      BufferCopy.dstOffset region = base + c /\ c + BufferCopy.size region <= c'.
Proof.
  intros Hr.
  pose proof (VkFacts.wrap64_range
                (TransferSrcData.numBytesPerElement src
                 * TransferSrcData.numElements src)) as Hsz.
  fold (byteSize src) in Hsz.
  unfold RenderContext.stageItem.
  pose proof (BufferAllocatorFacts.allocate_readyAt st i c _ (byteSize src) 0 Hr
                ltac:(lia)) as (c1 & Hr1 & Hle1 & Hok1).
  assert (Hw1 : readyAt c1 (callAllocate targetAllocator (byteSize src) 0 w).2).
  { rewrite callAllocate_allocators, Nat.eqb_refl. exact Hr1. }
  assert (Hok : (callAllocate targetAllocator (byteSize src) 0 w).1.1 = true ->
                (callAllocate targetAllocator (byteSize src) 0 w).1.2 = base + c /\
                c + byteSize src <= c1).
  { rewrite callAllocate_result. exact Hok1. }
  clear Hr1 Hok1.
  destruct (callAllocate targetAllocator (byteSize src) 0 w) as [[ok1 dstOff] w1].
  simpl in Hw1, Hok.
  destruct ok1.
  2:{ exists c1. split; [exact Hw1|]. split; [lia | done]. }
  destruct (Hok eq_refl) as [-> Hfit].
  destruct (callAllocate_readyAt (mTransientMemory ctx) (byteSize src) 0 w1 c1 Hw1
              ltac:(lia)) as (c2 & Hw2 & Hle2).
  destruct (callAllocate (mTransientMemory ctx) (byteSize src) 0 w1)
    as [[ok2 srcOff] w2]. simpl in Hw2.
  destruct ok2.
  2:{ exists c2. split; [exact Hw2|]. split; [lia | done]. }
  pose proof (callMap_readyAt (mTransientMemory ctx) w2 c2 Hw2) as Hw3.
  destruct (callMap (mTransientMemory ctx) w2) as [[ok3 pData] w3]. simpl in Hw3.
  destruct ok3.
  2:{ exists c2. split; [exact Hw3|]. split; [lia | done]. }
  exists c2. simpl. split; [exact Hw3|]. split; [lia|].
  intros region [= <-]. simpl. split; [done | lia].
Qed.

(* every staged region lies in the active slot of the target, at or after
   the cursor the batch started from, and the first one starts there *)
Lemma stageData_regions_in_slot dataVec : forall (w : World BufferAllocator.t) c,
  readyAt c w ->
  Forall (fun region =>
            base + c <= BufferCopy.dstOffset region /\
            BufferCopy.dstOffset region + BufferCopy.size region
              <= base + BufferAllocator.slotSize st)
    (stageData ctx targetAllocator dataVec w).1 /\
  forall front,
    head (stageData ctx targetAllocator dataVec w).1 = Some front ->
    BufferCopy.dstOffset front = base + c.
Proof.
  induction dataVec as [|src rest IH]; intros w c Hr; [by split|].
  destruct (stageItem_readyAt src w c Hr) as (c' & Hr' & Hle & Hregion).
  destruct (stageItem ctx targetAllocator src w) as [[region|] w'] eqn:Hitem.
  - rewrite (stageData_cons_ok _ _ _ _ _ _ _ Hitem). simpl in *.
    destruct (Hregion region eq_refl) as [Hdst Hfit].
    destruct (IH w' c' Hr') as [IHall _].
    destruct Hr' as (_ & _ & _ & _ & Hin).
    split.
    + constructor; [lia|].
      eapply Forall_impl; [exact IHall|]. simpl. intros r [? ?]. lia.
    + by intros front [= <-].
  - rewrite (stageData_cons_fail _ _ _ _ _ _ Hitem). by split.
Qed.

(* With a BufferAllocator target whose reservation fits in 64 bits, the
   barrier of storeDataCmd spans exactly [first dstOffset, last dstOffset +
   last size). *)
Lemma storeDataCmd_barrier_span dataVec (w : World BufferAllocator.t) c frame front back :
  readyAt c w ->
  (i < BufferAllocator.frameCount st)%nat ->
  0 <= BufferAllocator.size st < 2 ^ 64 ->
  mVirtualFrames ctx !! mCurrentVirtualFrame ctx = Some frame ->
  head (stageData ctx targetAllocator dataVec w).1 = Some front ->
  last (stageData ctx targetAllocator dataVec w).1 = Some back ->
  exists result ctx' cmd b,
    storeDataCmd ctx targetAllocator dataVec w =
      Done (result, ctx', (stageData ctx targetAllocator dataVec w).2) /\
    lastSubmitted ctx' = Some cmd /\
    barriersOf cmd = [b] /\
    BufferMemoryBarrier.offset b = BufferCopy.dstOffset front /\
    BufferMemoryBarrier.offset b + BufferMemoryBarrier.size b =
      BufferCopy.dstOffset back + BufferCopy.size back.
Proof.
  intros Hr Hi Hsz Hframe Hfront Hback.
  destruct (stageData_regions_in_slot dataVec w c Hr) as [Hall Hhead].
  specialize (Hhead front Hfront).
  assert (Hin : back ∈ (stageData ctx targetAllocator dataVec w).1).
  { apply last_Some in Hback as [l ->]. apply elem_of_app. right. by left. }
  pose proof (proj1 (Forall_forall _ _) Hall back Hin) as [Hlo Hhi].
  pose proof (BufferAllocatorFacts.slot_end_in_reservation st i Hi ltac:(lia)) as Hend.
  pose proof (BufferAllocatorFacts.slotBase_nonneg st i ltac:(lia)) as Hbase.
  destruct Hr as (_ & _ & _ & _ & Hc).
  destruct (storeDataCmd_done ctx targetAllocator dataVec w frame front back
              Hframe Hfront Hback) as (ctx' & Hrun & Hlast & _).
  do 4 eexists. split; [exact Hrun|]. split; [exact Hlast|].
  split; [reflexivity|]. simpl. split; [done|].
  pose proof (stageData_sizes ctx targetAllocator dataVec w) as Hsizes.
  assert (0 <= BufferCopy.size back).
  { apply list_elem_of_lookup in Hin as [k Hk].
    destruct (Hsizes k back Hk) as (src & _ & ->).
    apply VkFacts.wrap64_range. }
  apply VkFacts.wrap64_span_exact; lia.
Qed.

End TargetIsBufferAllocator.

End RenderContextFacts.

(** ** stageData, storeDataCmd and submit beyond the claims *)

Module StagingFacts.

Import Vk RenderContext RenderContextFacts.

Section WithAllocator.

Context {A : Type} `{Allocator A}.

Variable ctx : RenderContext.t.
Variable targetAllocator : nat.

Local Abbreviation stageItem := (stageItem ctx targetAllocator).
Local Abbreviation stageData := (stageData ctx targetAllocator).
Local Abbreviation storeDataCmd := (storeDataCmd ctx targetAllocator).
Local Abbreviation alloc_error := (ofLogError "StageData: alloc error").

(** *** What one pass of the loop body leaves behind *)

Lemma stageItem_errorLog src (w : World A) :
  errorLog (stageItem src w).2 = errorLog w.
Proof.
  unfold RenderContext.stageItem, callAllocate, callMap.
  destruct (allocate (allocators w targetAllocator) _ _) as [[ok1 o1] a1].
  destruct ok1; [|done]. simpl.
  destruct (allocate _ _ _) as [[ok2 o2] a2]. destruct ok2; [|done]. simpl.
  destruct (map _) as [[ok3 p] a3]. by destruct ok3.
Qed.

Lemma stageItem_hostWrites src (w : World A) :
  match (stageItem src w).1 with
  | Some region =>
      BufferCopy.size region = byteSize src /\
      exists pData,
        hostWrites (stageItem src w).2 =
          hostWrites w ++ [mkMemcpy pData (TransferSrcData.pData src) (byteSize src)]
  | None => hostWrites (stageItem src w).2 = hostWrites w
  end.
Proof.
  unfold RenderContext.stageItem, callAllocate, callMap.
  destruct (allocate (allocators w targetAllocator) _ _) as [[ok1 o1] a1].
  destruct ok1; [|done]. simpl.
  destruct (allocate _ _ _) as [[ok2 o2] a2]. destruct ok2; [|done]. simpl.
  destruct (map _) as [[ok3 p] a3]. destruct ok3; [|done]. simpl.
  split; [done|]. by exists p.
Qed.

Lemma stageItem_allocators_other src (w : World A) q :
  q <> targetAllocator -> q <> mTransientMemory ctx ->
  allocators (stageItem src w).2 q = allocators w q.
Proof.
  intros Ht Hs.
  apply Nat.eqb_neq in Ht. apply Nat.eqb_neq in Hs.
  unfold RenderContext.stageItem.
  pose proof (callAllocate_allocators targetAllocator (byteSize src) 0 w q) as E1.
  rewrite Ht in E1.
  destruct (callAllocate targetAllocator (byteSize src) 0 w) as [[ok1 o1] w1].
  simpl in E1. destruct ok1; [|done].
  pose proof (callAllocate_allocators (mTransientMemory ctx) (byteSize src) 0 w1 q)
    as E2.
  rewrite Hs in E2.
  destruct (callAllocate (mTransientMemory ctx) (byteSize src) 0 w1)
    as [[ok2 o2] w2].
  simpl in E2. destruct ok2; [|simpl; congruence].
  pose proof (callMap_allocators (mTransientMemory ctx) w2 q) as E3.
  rewrite Hs in E3.
  destruct (callMap (mTransientMemory ctx) w2) as [[ok3 p] w3].
  simpl in E3. destruct ok3; simpl; congruence.
Qed.

(** *** The batch *)

(** X1: stageData never returns more regions than it was given items, and
    it logs "StageData: alloc error" exactly once when it returns fewer and
    not at all when it returns one per item. *)
Theorem stageData_count_and_log dataVec : forall w : World A,
  (length (stageData dataVec w).1 <= length dataVec)%nat /\
  errorLog (stageData dataVec w).2 =
    errorLog w ++
    (if decide (length (stageData dataVec w).1 = length dataVec) then []
     else ["StageData: alloc error"%string]).
Proof.
  induction dataVec as [|src rest IH]; intros w.
  - simpl. split; [lia|]. by rewrite app_nil_r.
  - pose proof (stageItem_errorLog src w) as Hlog.
    destruct (stageItem src w) as [[region|] w'] eqn:Hitem; simpl in Hlog.
    + rewrite (stageData_cons_ok _ _ _ _ _ _ _ Hitem). simpl.
      destruct (IH w') as [IHlen IHlog]. split; [lia|].
      rewrite IHlog, Hlog. f_equal.
      destruct (decide (length (stageData rest w').1 = length rest));
        destruct (decide (S (length (stageData rest w').1) = S (length rest)));
        (done || lia).
    + rewrite (stageData_cons_fail _ _ _ _ _ _ Hitem). simpl.
      split; [lia|]. by rewrite Hlog.
Qed.

(** X2: stageData makes exactly one memcpy per region it returns and no
    other: the i-th copy reads from the i-th item's data pointer and moves
    as many bytes as the i-th region's size, which is the item's byte
    count; items that are not staged are never copied. *)
Theorem stageData_one_memcpy_per_region dataVec : forall w : World A,
  exists writes,
    hostWrites (stageData dataVec w).2 = hostWrites w ++ writes /\
    length writes = length (stageData dataVec w).1 /\
    forall (i : nat) wr, writes !! i = Some wr ->
      exists src region,
        dataVec !! i = Some src /\
        (stageData dataVec w).1 !! i = Some region /\
        mcSrc wr = TransferSrcData.pData src /\
        mcCount wr = BufferCopy.size region /\
        mcCount wr = byteSize src.
Proof.
  induction dataVec as [|src rest IH]; intros w.
  - exists []. simpl. by rewrite app_nil_r.
  - pose proof (stageItem_hostWrites src w) as Hw.
    destruct (stageItem src w) as [[region|] w'] eqn:Hitem; simpl in Hw.
    + destruct Hw as [Hsz [pData Hw]].
      destruct (IH w') as (writes & Hall & Hlen & Hith).
      rewrite (stageData_cons_ok _ _ _ _ _ _ _ Hitem). simpl.
      exists (mkMemcpy pData (TransferSrcData.pData src) (byteSize src) :: writes).
      split; [by rewrite Hall, Hw, <- app_assoc|].
      split; [simpl; lia|].
      intros [|i] wr Hi; simpl in Hi.
      * injection Hi as <-. exists src, region. by rewrite Hsz.
      * by apply Hith.
    + rewrite (stageData_cons_fail _ _ _ _ _ _ Hitem). simpl.
      exists []. by rewrite app_nil_r.
Qed.

(** X3: stageData calls no allocator but the target and the context's own
    transient allocator: every other allocator object is in the state it was
    in before the call, whether the batch succeeds or stops early. *)
Theorem stageData_other_allocators dataVec : forall (w : World A) q,
  q <> targetAllocator -> q <> mTransientMemory ctx ->
  allocators (stageData dataVec w).2 q = allocators w q.
Proof.
  induction dataVec as [|src rest IH]; intros w q Ht Hs; [done|].
  pose proof (stageItem_allocators_other src w q Ht Hs) as Hq.
  destruct (stageItem src w) as [[region|] w'] eqn:Hitem; simpl in Hq.
  - rewrite (stageData_cons_ok _ _ _ _ _ _ _ Hitem). simpl.
    by rewrite IH.
  - by rewrite (stageData_cons_fail _ _ _ _ _ _ Hitem).
Qed.

(** X4: staging a list in one call gives the same regions and leaves the
    same world as staging a first part and then, from the world that
    leaves, the rest, provided every item of the first part is staged. *)
Theorem stageData_app pre : forall post (w : World A),
  length (stageData pre w).1 = length pre ->
  stageData (pre ++ post) w =
    ((stageData pre w).1 ++ (stageData post (stageData pre w).2).1,
     (stageData post (stageData pre w).2).2).
Proof.
  induction pre as [|src pre IH]; intros post w Hlen.
  - simpl. by destruct (stageData post w).
  - destruct (stageItem src w) as [[region|] w'] eqn:Hitem.
    + rewrite (stageData_cons_ok _ _ _ _ _ _ _ Hitem) in Hlen |- *.
      simpl in Hlen |- *.
      rewrite (stageData_cons_ok _ _ _ (pre ++ post) _ _ _ Hitem).
      rewrite (IH post w') by lia. done.
    + rewrite (stageData_cons_fail _ _ _ _ _ _ Hitem) in Hlen. done.
Qed.

(** X5: when the destination allocation of an item fails, stageData asks
    nothing of the staging allocator for it and copies nothing: the batch
    ends with the regions of the earlier items, the memcpy calls made so far,
    and a staging allocator (when it is another object than the target) in
    the state the earlier items left. *)
Theorem stageData_destination_failure pre bad rest (w : World A) :
  length (stageData pre w).1 = length pre ->
  (callAllocate targetAllocator (byteSize bad) 0 (stageData pre w).2).1.1 = false ->
  (stageData (pre ++ bad :: rest) w).1 = (stageData pre w).1 /\
  hostWrites (stageData (pre ++ bad :: rest) w).2 = hostWrites (stageData pre w).2 /\
  (targetAllocator <> mTransientMemory ctx ->
   allocators (stageData (pre ++ bad :: rest) w).2 (mTransientMemory ctx) =
     allocators (stageData pre w).2 (mTransientMemory ctx)).
Proof.
  intros Hlen Hfail.
  set (w1 := (stageData pre w).2) in *.
  assert (Hitem : stageItem bad w1 =
                    (None, (callAllocate targetAllocator (byteSize bad) 0 w1).2)).
  { unfold RenderContext.stageItem.
    destruct (callAllocate targetAllocator (byteSize bad) 0 w1) as [[ok o] w2].
    simpl in Hfail. by subst ok. }
  rewrite (stageData_stops ctx targetAllocator pre bad rest w _ Hlen Hitem).
  simpl. split; [done|]. split.
  - apply callAllocate_hostWrites.
  - intros Hd. rewrite callAllocate_allocators.
    apply not_eq_sym, Nat.eqb_neq in Hd. by rewrite Hd.
Qed.

(** X14: when the target allocator is the context's own transient
    allocator, a staged item takes two allocations of its byte count from
    that one object: dstOffset comes from the first, srcOffset from the
    second, made on the state the first one left, and the allocator ends in
    the state map() leaves after the second. *)
Theorem stageItem_shared_allocator src (w : World A) region :
  targetAllocator = mTransientMemory ctx ->
  (stageItem src w).1 = Some region ->
  let s := allocators w targetAllocator in
  let s1 := (allocate s (byteSize src) 0).2 in
  let s2 := (allocate s1 (byteSize src) 0).2 in
  allocate s (byteSize src) 0 = (true, BufferCopy.dstOffset region, s1) /\
  allocate s1 (byteSize src) 0 = (true, BufferCopy.srcOffset region, s2) /\
  allocators (stageItem src w).2 targetAllocator = (map s2).2.
Proof.
  intros Halias. unfold RenderContext.stageItem. rewrite <- Halias.
  pose proof (callAllocate_result targetAllocator (byteSize src) 0 w) as R1.
  pose proof (callAllocate_allocators targetAllocator (byteSize src) 0 w
                targetAllocator) as E1.
  rewrite Nat.eqb_refl in E1.
  destruct (callAllocate targetAllocator (byteSize src) 0 w) as [[ok1 o1] w1].
  simpl in R1, E1. destruct ok1; [|done].
  pose proof (callAllocate_result targetAllocator (byteSize src) 0 w1) as R2.
  pose proof (callAllocate_allocators targetAllocator (byteSize src) 0 w1
                targetAllocator) as E2.
  rewrite Nat.eqb_refl in E2.
  destruct (callAllocate targetAllocator (byteSize src) 0 w1) as [[ok2 o2] w2].
  simpl in R2, E2. destruct ok2; [|done].
  pose proof (callMap_allocators targetAllocator w2 targetAllocator) as E3.
  rewrite Nat.eqb_refl in E3.
  destruct (callMap targetAllocator w2) as [[ok3 p] w3].
  simpl in E3. destruct ok3; [|done].
  simpl. intros [= <-]. simpl.
  rewrite E1 in R2, E2. rewrite E2 in E3.
  split; [|split; [|exact E3]].
  - destruct (allocate (allocators w targetAllocator) (byteSize src) 0)
      as [[ok o] a]. simpl in *. congruence.
  - destruct (allocate (allocate (allocators w targetAllocator) (byteSize src) 0).2
                (byteSize src) 0) as [[ok o] a]. simpl in *. congruence.
Qed.

(** *** storeDataCmd as a whole *)

(* the context a successful storeDataCmd leaves, spelled out *)
Lemma storeDataCmd_explicit dataVec (w : World A) frame front back :
  mVirtualFrames ctx !! mCurrentVirtualFrame ctx = Some frame ->
  head (stageData dataVec w).1 = Some front ->
  last (stageData dataVec w).1 = Some back ->
  let copyRegions := (stageData dataVec w).1 in
  let w1 := (stageData dataVec w).2 in
  let targetBuffer := getBuffer (allocators w1 targetAllocator) in
  let cmd :=
    {| cbPool := commandPool frame; cbLevel := ePrimary;
       cbCommands :=
         [CmdBegin eOneTimeSubmit;
          CmdCopyBuffer (getBuffer (allocators w1 (mTransientMemory ctx)))
            targetBuffer copyRegions;
          CmdPipelineBarrier eTopOfPipe eTopOfPipe 0 0
            [transferBarrier targetBuffer (BufferCopy.dstOffset front)
               (wrap64 (wrap64 (BufferCopy.dstOffset back + BufferCopy.size back)
                        - BufferCopy.dstOffset front))] 0;
          CmdEnd] |} in
  storeDataCmd dataVec w =
    Done (describe targetBuffer copyRegions dataVec,
          {| mVirtualFrames :=
               <[mCurrentVirtualFrame ctx :=
                   {| commandPool := commandPool frame;
                      commandBuffers := commandBuffers frame ++ [cmd] |}]>
                 (mVirtualFrames ctx);
             mCurrentVirtualFrame := mCurrentVirtualFrame ctx;
             mTransientMemory := mTransientMemory ctx |},
          w1).
Proof.
  intros Hframe Hfront Hback copyRegions w1 targetBuffer cmd.
  pose proof (stageData_length ctx targetAllocator dataVec w) as Hlen.
  unfold RenderContext.storeDataCmd.
  subst copyRegions w1 targetBuffer cmd.
  destruct (stageData dataVec w) as [copyRegions w1]. simpl in *.
  rewrite describeFrom_all, Hfront, Hback by done.
  unfold allocateTransientCommandBuffer, submit. by rewrite Hframe.
Qed.

Lemma storeDataCmd_undefined dataVec (w : World A) :
  (stageData dataVec w).1 = [] \/
  mVirtualFrames ctx !! mCurrentVirtualFrame ctx = None ->
  storeDataCmd dataVec w = Undefined.
Proof.
  intros Hcase.
  pose proof (stageData_length ctx targetAllocator dataVec w) as Hlen.
  unfold RenderContext.storeDataCmd.
  destruct (stageData dataVec w) as [copyRegions w1]. simpl in *.
  rewrite describeFrom_all by done.
  destruct Hcase as [-> | Hnone]; [done|].
  destruct (head copyRegions); [|done].
  destruct (last copyRegions); [|done].
  unfold allocateTransientCommandBuffer. by rewrite Hnone.
Qed.

Lemma nonempty_ends {T} (l : list T) :
  l <> [] -> exists front back, head l = Some front /\ last l = Some back.
Proof.
  intros Hne.
  destruct (proj2 (head_is_Some l) Hne) as [front Hf].
  destruct (proj2 (last_is_Some l) Hne) as [back Hb].
  by exists front, back.
Qed.

(* a normal return, read backwards *)
Lemma storeDataCmd_Done_inv dataVec (w : World A) r :
  storeDataCmd dataVec w = Done r ->
  exists frame front back,
    mVirtualFrames ctx !! mCurrentVirtualFrame ctx = Some frame /\
    head (stageData dataVec w).1 = Some front /\
    last (stageData dataVec w).1 = Some back.
Proof.
  intros Hrun.
  destruct (mVirtualFrames ctx !! mCurrentVirtualFrame ctx) as [frame|] eqn:Hframe.
  2:{ rewrite (storeDataCmd_undefined dataVec w) in Hrun by (by right). done. }
  destruct (decide ((stageData dataVec w).1 = [])) as [Hnil|Hne].
  { rewrite (storeDataCmd_undefined dataVec w) in Hrun by (by left). done. }
  destruct (nonempty_ends _ Hne) as (front & back & Hf & Hb).
  by exists frame, front, back.
Qed.

(** X6: whenever storeDataCmd returns, it returns one descriptor per staged
    copy-region, also when stageData stopped early and the regions are fewer
    than the items: the i-th descriptor names the target allocator's buffer,
    the i-th region's dstOffset and size, and the element count of the i-th
    item, whose byte count that size is. *)
Theorem storeDataCmd_descriptors_of_staged dataVec (w : World A) result ctx' w' :
  storeDataCmd dataVec w = Done (result, ctx', w') ->
  length result = length (stageData dataVec w).1 /\
  (length result <= length dataVec)%nat /\
  forall (i : nat) region, (stageData dataVec w).1 !! i = Some region ->
    exists srcData,
      dataVec !! i = Some srcData /\
      BufferCopy.size region = byteSize srcData /\
      result !! i =
        Some {| BufferRegion.buffer :=
                  getBuffer (allocators (stageData dataVec w).2 targetAllocator);
                BufferRegion.offset := BufferCopy.dstOffset region;
                BufferRegion.range := BufferCopy.size region;
                BufferRegion.numElements := TransferSrcData.numElements srcData |}.
Proof.
  intros Hrun.
  destruct (storeDataCmd_Done_inv dataVec w _ Hrun)
    as (frame & front & back & Hframe & Hf & Hb).
  rewrite (storeDataCmd_explicit dataVec w frame front back Hframe Hf Hb) in Hrun.
  injection Hrun as <- _ _.
  pose proof (stageData_length ctx targetAllocator dataVec w) as Hlen.
  unfold describe. rewrite length_zip_with.
  split; [lia|]. split; [lia|].
  intros i region Hr.
  destruct (stageData_sizes ctx targetAllocator dataVec w i region Hr)
    as (srcData & Hd & Hsz).
  exists srcData. split; [done|]. split; [done|].
  by apply describe_lookup.
Qed.

(** X7: whenever storeDataCmd returns, the command buffer it has handed to
    the current frame is a primary one from that frame's command pool and
    holds, in this order, begin (one-time submit), one copy of exactly the
    staged regions from the transient allocator's buffer to the target
    allocator's buffer, one pipeline barrier from top-of-pipe to top-of-pipe
    with a single buffer barrier and no memory or image barrier, and end. *)
Theorem storeDataCmd_recorded_commands dataVec (w : World A) result ctx' w' :
  storeDataCmd dataVec w = Done (result, ctx', w') ->
  exists frame cmd b,
    mVirtualFrames ctx !! mCurrentVirtualFrame ctx = Some frame /\
    lastSubmitted ctx' = Some cmd /\
    cbPool cmd = commandPool frame /\
    cbLevel cmd = ePrimary /\
    cbCommands cmd =
      [CmdBegin eOneTimeSubmit;
       CmdCopyBuffer
         (getBuffer (allocators (stageData dataVec w).2 (mTransientMemory ctx)))
         (getBuffer (allocators (stageData dataVec w).2 targetAllocator))
         (stageData dataVec w).1;
       CmdPipelineBarrier eTopOfPipe eTopOfPipe 0 0 [b] 0;
       CmdEnd].
Proof.
  intros Hrun.
  destruct (storeDataCmd_Done_inv dataVec w _ Hrun)
    as (frame & front & back & Hframe & Hf & Hb).
  rewrite (storeDataCmd_explicit dataVec w frame front back Hframe Hf Hb) in Hrun.
  injection Hrun as _ <- _.
  do 3 eexists. split; [exact Hframe|]. split.
  - unfold lastSubmitted. simpl.
    rewrite list_lookup_insert_eq by (by eapply lookup_lt_Some).
    simpl. by rewrite last_snoc.
  - by repeat split.
Qed.

(** X8: whenever storeDataCmd returns, the world it returns is the one
    stageData left, and the context differs from the one it was called on
    only in the current virtual frame, whose command-buffer list has grown
    by exactly one entry at its end: the frame count, the current frame
    index, the transient allocator, the frame's command pool and every other
    frame are as before. *)
Theorem storeDataCmd_context_effect dataVec (w : World A) result ctx' w' :
  storeDataCmd dataVec w = Done (result, ctx', w') ->
  w' = (stageData dataVec w).2 /\
  mCurrentVirtualFrame ctx' = mCurrentVirtualFrame ctx /\
  mTransientMemory ctx' = mTransientMemory ctx /\
  length (mVirtualFrames ctx') = length (mVirtualFrames ctx) /\
  (forall j : nat, j <> mCurrentVirtualFrame ctx ->
     mVirtualFrames ctx' !! j = mVirtualFrames ctx !! j) /\
  exists frame cmd,
    mVirtualFrames ctx !! mCurrentVirtualFrame ctx = Some frame /\
    mVirtualFrames ctx' !! mCurrentVirtualFrame ctx =
      Some {| commandPool := commandPool frame;
              commandBuffers := commandBuffers frame ++ [cmd] |}.
Proof.
  intros Hrun.
  destruct (storeDataCmd_Done_inv dataVec w _ Hrun)
    as (frame & front & back & Hframe & Hf & Hb).
  rewrite (storeDataCmd_explicit dataVec w frame front back Hframe Hf Hb) in Hrun.
  injection Hrun as _ <- <-. simpl.
  split; [done|]. split; [done|]. split; [done|].
  split; [by rewrite length_insert|]. split.
  - intros j Hj. by rewrite list_lookup_insert_ne.
  - do 2 eexists. split; [exact Hframe|].
    apply list_lookup_insert_eq. by eapply lookup_lt_Some.
Qed.

(** X9: storeDataCmd returns normally when stageData produced at least one
    region and the context's current virtual frame exists, and in every
    other case (no region, or a current frame index with no frame behind it)
    its behaviour is undefined; the bounds-checked at() of submit is never
    what stops it. *)
Theorem storeDataCmd_returns_iff dataVec (w : World A) :
  ((stageData dataVec w).1 <> [] /\
   is_Some (mVirtualFrames ctx !! mCurrentVirtualFrame ctx) ->
   exists r, storeDataCmd dataVec w = Done r) /\
  ((stageData dataVec w).1 = [] \/
   mVirtualFrames ctx !! mCurrentVirtualFrame ctx = None ->
   storeDataCmd dataVec w = Undefined) /\
  storeDataCmd dataVec w <> Thrown.
Proof.
  assert (Hyes : (stageData dataVec w).1 <> [] /\
                 is_Some (mVirtualFrames ctx !! mCurrentVirtualFrame ctx) ->
                 exists r, storeDataCmd dataVec w = Done r).
  { intros [Hne [frame Hframe]].
    destruct (nonempty_ends _ Hne) as (front & back & Hf & Hb).
    eexists. by apply (storeDataCmd_explicit dataVec w frame front back). }
  split; [exact Hyes|]. split; [apply storeDataCmd_undefined|].
  destruct (decide ((stageData dataVec w).1 = [])) as [Hnil|Hne].
  { rewrite storeDataCmd_undefined by (by left). done. }
  destruct (mVirtualFrames ctx !! mCurrentVirtualFrame ctx) as [frame|] eqn:Hframe.
  - destruct Hyes as [r ->]; [|done]. split; [done|]. by exists frame.
  - rewrite storeDataCmd_undefined by (by right). done.
Qed.

End WithAllocator.

(** *** submit and allocateTransientCommandBuffer *)

(** X10: submit throws exactly when the current frame index has no frame
    behind it and is never undefined; otherwise it puts the command buffer
    at the end of the current frame's list, where it is the last one
    submitted, and leaves the frame count, the current index, the transient
    allocator, the frame's command pool and every other frame as they
    were. *)
Theorem submit_appends (ctx : RenderContext.t) (commandBuffer : CommandBuffer) :
  (submit ctx commandBuffer = Thrown <->
   (length (mVirtualFrames ctx) <= mCurrentVirtualFrame ctx)%nat) /\
  submit ctx commandBuffer <> Undefined /\
  forall ctx', submit ctx commandBuffer = Done ctx' ->
    mCurrentVirtualFrame ctx' = mCurrentVirtualFrame ctx /\
    mTransientMemory ctx' = mTransientMemory ctx /\
    length (mVirtualFrames ctx') = length (mVirtualFrames ctx) /\
    (forall j : nat, j <> mCurrentVirtualFrame ctx ->
       mVirtualFrames ctx' !! j = mVirtualFrames ctx !! j) /\
    lastSubmitted ctx' = Some commandBuffer /\
    exists frame,
      mVirtualFrames ctx !! mCurrentVirtualFrame ctx = Some frame /\
      mVirtualFrames ctx' !! mCurrentVirtualFrame ctx =
        Some {| commandPool := commandPool frame;
                commandBuffers := commandBuffers frame ++ [commandBuffer] |}.
Proof.
  unfold submit.
  destruct (mVirtualFrames ctx !! mCurrentVirtualFrame ctx) as [frame|] eqn:Hframe.
  - pose proof (lookup_lt_Some _ _ _ Hframe) as Hlt.
    split; [split; [done | lia]|]. split; [done|].
    intros ctx' [= <-]. simpl.
    assert (Hnew : <[mCurrentVirtualFrame ctx :=
                      {| commandPool := commandPool frame;
                         commandBuffers := commandBuffers frame ++ [commandBuffer] |}]>
                     (mVirtualFrames ctx) !! mCurrentVirtualFrame ctx =
                   Some {| commandPool := commandPool frame;
                           commandBuffers := commandBuffers frame ++ [commandBuffer] |})
      by (by apply list_lookup_insert_eq).
    split; [done|]. split; [done|]. split; [by rewrite length_insert|].
    split; [intros j Hj; by rewrite list_lookup_insert_ne|].
    split.
    + unfold lastSubmitted. simpl. rewrite Hnew. simpl. by rewrite last_snoc.
    + by exists frame.
  - apply lookup_ge_None in Hframe.
    split; [done|]. split; done.
Qed.

(** X11: command buffers submitted one after the other to a context with a
    current frame are all accepted and sit at the end of that frame's list
    in the order of the calls. *)
Theorem submit_in_order (ctx : RenderContext.t) (first second : CommandBuffer) frame :
  mVirtualFrames ctx !! mCurrentVirtualFrame ctx = Some frame ->
  exists ctx1 ctx2,
    submit ctx first = Done ctx1 /\
    submit ctx1 second = Done ctx2 /\
    mVirtualFrames ctx2 !! mCurrentVirtualFrame ctx =
      Some {| commandPool := commandPool frame;
              commandBuffers := commandBuffers frame ++ [first; second] |} /\
    length (mVirtualFrames ctx2) = length (mVirtualFrames ctx).
Proof.
  intros Hframe.
  pose proof (lookup_lt_Some _ _ _ Hframe) as Hlt.
  unfold submit at 1. rewrite Hframe.
  eexists. eexists. split; [reflexivity|].
  unfold submit. simpl.
  rewrite list_lookup_insert_eq by done. simpl.
  split; [reflexivity|]. simpl.
  rewrite list_insert_insert_eq, !length_insert.
  split; [|done].
  rewrite list_lookup_insert_eq by done.
  by rewrite <- app_assoc.
Qed.

(** X12: allocateTransientCommandBuffer is undefined exactly when the current
    frame index has no frame behind it; otherwise it yields an empty command
    buffer of the requested level from the current frame's command pool, and
    submitting that buffer to the same context cannot throw: it becomes the
    last one submitted to the frame whose pool it came from. *)
Theorem transient_buffer_can_be_submitted (ctx : RenderContext.t)
    (commandBufferLevel : CommandBufferLevel) :
  (allocateTransientCommandBuffer ctx commandBufferLevel = Undefined <->
   mVirtualFrames ctx !! mCurrentVirtualFrame ctx = None) /\
  allocateTransientCommandBuffer ctx commandBufferLevel <> Thrown /\
  forall cmd, allocateTransientCommandBuffer ctx commandBufferLevel = Done cmd ->
    cbCommands cmd = [] /\
    cbLevel cmd = commandBufferLevel /\
    exists frame ctx',
      mVirtualFrames ctx !! mCurrentVirtualFrame ctx = Some frame /\
      cbPool cmd = commandPool frame /\
      submit ctx cmd = Done ctx' /\
      lastSubmitted ctx' = Some cmd.
Proof.
  unfold allocateTransientCommandBuffer, submit.
  destruct (mVirtualFrames ctx !! mCurrentVirtualFrame ctx) as [frame|] eqn:Hframe.
  - split; [done|]. split; [done|].
    intros cmd [= <-]. simpl. split; [done|]. split; [done|].
    do 2 eexists. split; [done|]. split; [done|]. split; [reflexivity|].
    unfold lastSubmitted. simpl.
    rewrite list_lookup_insert_eq by (by eapply lookup_lt_Some).
    simpl. by rewrite last_snoc.
  - split; [done|]. split; done.
Qed.

(** *** borrowPipeline *)

(** X13: borrowPipeline always leaves an entry under the hash it was asked
    for and returns what that entry holds; a hash already in the cache is
    returned as stored and the cache is unchanged, a hash that is missing is
    entered with a null pipeline, so the cache grows by one; no other entry
    is added, removed or changed, and asking again changes nothing
    further. *)
Theorem borrowPipeline_enters_missing (pipelineHash : Z) (cache : gmap Z Z) :
  let pipeline := (PipelineCache.borrowPipeline pipelineHash cache).1 in
  let cache' := (PipelineCache.borrowPipeline pipelineHash cache).2 in
  cache' !! pipelineHash = Some pipeline /\
  (forall k, k <> pipelineHash -> cache' !! k = cache !! k) /\
  (forall stored, cache !! pipelineHash = Some stored ->
     pipeline = stored /\ cache' = cache) /\
  (cache !! pipelineHash = None ->
     pipeline = nullptr /\ size cache' = S (size cache)) /\
  PipelineCache.borrowPipeline pipelineHash cache' = (pipeline, cache').
Proof.
  unfold PipelineCache.borrowPipeline.
  destruct (cache !! pipelineHash) as [stored|] eqn:Hlook; simpl.
  - rewrite Hlook. split_and!; try done.
    intros stored' [= <-]. done.
  - rewrite lookup_insert_eq. split_and!; try done.
    + intros k Hk. by rewrite lookup_insert_ne.
    + intros _. split; [done|]. by apply map_size_insert_None.
Qed.

(** *** The theorems at work on the configurations above *)

Lemma stageData_other_allocators_witness :
  allocators
    (stageData Scenario.context 1 [Scenario.vertices; Scenario.texels]
       Scenario.world).2 2%nat
  = allocators Scenario.world 2%nat.
Proof.
  apply (stageData_other_allocators (H := BufferAllocator_Allocator)
           Scenario.context 1 [Scenario.vertices; Scenario.texels]
           Scenario.world 2%nat); simpl; lia.
Defined.

Lemma stageItem_shared_allocator_witness :
  allocate Scenario.staging 100 0 =
    (true, 0, (allocate Scenario.staging 100 0).2) /\
  allocate (allocate Scenario.staging 100 0).2 100 0 =
    (true, 256, (allocate (allocate Scenario.staging 100 0).2 100 0).2).
Proof.
  destruct (stageItem_shared_allocator (H := BufferAllocator_Allocator)
              Scenario.context 0 Scenario.vertices Scenario.world
              (BufferCopy.mk 256 0 100) eq_refl eq_refl) as (H1 & H2 & _).
  split; [exact H1 | exact H2].
Defined.

Lemma stageData_app_witness :
  (stageData Scenario.context 1 ([Scenario.vertices] ++ [Scenario.indices])
     Scenario.world).1
  = [BufferCopy.mk 0 0 100; BufferCopy.mk 256 256 50].
Proof.
  rewrite (stageData_app (H := BufferAllocator_Allocator) Scenario.context 1
             [Scenario.vertices] [Scenario.indices] Scenario.world eq_refl).
  reflexivity.
Defined.

Lemma stageData_destination_failure_witness :
  hostWrites
    (stageData Scenario.context 1
       ([Scenario.texels] ++ Scenario.vertices :: [Scenario.indices])
       Scenario.world).2
  = [mkMemcpy 4096 3000 512].
Proof.
  destruct (stageData_destination_failure (H := BufferAllocator_Allocator)
              Scenario.context 1 [Scenario.texels] Scenario.vertices
              [Scenario.indices] Scenario.world eq_refl eq_refl)
    as (_ & Hwrites & _).
  rewrite Hwrites. reflexivity.
Defined.

Lemma storeDataCmd_descriptors_of_staged_witness :
  match storeDataCmd Scenario.context 1 [Scenario.vertices; Scenario.texels]
          Scenario.world with
  | Done (result, _, _) => length result = 1%nat
  | _ => False
  end.
Proof.
  destruct (storeDataCmd Scenario.context 1 [Scenario.vertices; Scenario.texels]
              Scenario.world) as [[[result ctx'] w']| |] eqn:Hrun;
    [|vm_compute in Hrun; discriminate..].
  destruct (storeDataCmd_descriptors_of_staged (H := BufferAllocator_Allocator)
              Scenario.context 1 [Scenario.vertices; Scenario.texels]
              Scenario.world result ctx' w' Hrun) as [Hlen _].
  rewrite Hlen. reflexivity.
Defined.

Lemma storeDataCmd_recorded_commands_witness :
  match storeDataCmd Scenario.context 1 [Scenario.vertices; Scenario.indices]
          Scenario.world with
  | Done (_, ctx', _) =>
      exists cmd, lastSubmitted ctx' = Some cmd /\ cbPool cmd = 31 /\
                  length (cbCommands cmd) = 4%nat
  | _ => False
  end.
Proof.
  destruct (storeDataCmd Scenario.context 1 [Scenario.vertices; Scenario.indices]
              Scenario.world) as [[[result ctx'] w']| |] eqn:Hrun;
    [|vm_compute in Hrun; discriminate..].
  destruct (storeDataCmd_recorded_commands (H := BufferAllocator_Allocator)
              Scenario.context 1 [Scenario.vertices; Scenario.indices]
              Scenario.world result ctx' w' Hrun)
    as (frame & cmd & b & Hframe & Hlast & Hpool & _ & Hcmds).
  exists cmd. split; [exact Hlast|]. split.
  - rewrite Hpool. by injection Hframe as <-.
  - by rewrite Hcmds.
Defined.

Lemma storeDataCmd_context_effect_witness :
  match storeDataCmd Scenario.context 1 [Scenario.vertices; Scenario.indices]
          Scenario.world with
  | Done (_, ctx', _) =>
      length (mVirtualFrames ctx') = 2%nat /\
      mVirtualFrames ctx' !! 1%nat = Some (mkVirtualFrame 32 [])
  | _ => False
  end.
Proof.
  destruct (storeDataCmd Scenario.context 1 [Scenario.vertices; Scenario.indices]
              Scenario.world) as [[[result ctx'] w']| |] eqn:Hrun;
    [|vm_compute in Hrun; discriminate..].
  destruct (storeDataCmd_context_effect (H := BufferAllocator_Allocator)
              Scenario.context 1 [Scenario.vertices; Scenario.indices]
              Scenario.world result ctx' w' Hrun)
    as (_ & _ & _ & Hlen & Hother & _).
  split; [exact Hlen|].
  rewrite (Hother 1%nat) by (simpl; lia). reflexivity.
Defined.

Lemma submit_in_order_witness :
  exists ctx1 ctx2,
    submit Scenario.context ScenarioMore.copyCmd = Done ctx1 /\
    submit ctx1 ScenarioMore.drawCmd = Done ctx2 /\
    mVirtualFrames ctx2 !! 0%nat =
      Some (mkVirtualFrame 31 [ScenarioMore.copyCmd; ScenarioMore.drawCmd]).
Proof.
  destruct (submit_in_order Scenario.context ScenarioMore.copyCmd
              ScenarioMore.drawCmd (mkVirtualFrame 31 []) eq_refl)
    as (ctx1 & ctx2 & H1 & H2 & Hframe & _).
  exists ctx1, ctx2. split; [exact H1|]. split; [exact H2 | exact Hframe].
Defined.

(* a context without frames: submit throws, the unchecked accesses of
   allocateTransientCommandBuffer and storeDataCmd are undefined *)
Example bare_context :
  submit ScenarioMore.bare ScenarioMore.copyCmd = Thrown /\
  allocateTransientCommandBuffer ScenarioMore.bare ePrimary = Undefined /\
  storeDataCmd ScenarioMore.bare 1 [Scenario.vertices] Scenario.world = Undefined.
Proof. repeat split. Qed.

(* a hash that misses enters a null pipeline beside the stored one *)
Example borrow_missing_pipeline :
  PipelineCache.borrowPipeline 9 ScenarioMore.pipelines =
    (0, <[9 := 0]> ScenarioMore.pipelines) /\
  PipelineCache.borrowPipeline 5 ScenarioMore.pipelines =
    (77, ScenarioMore.pipelines).
Proof. split; reflexivity. Qed.

End StagingFacts.

(** ** Where stageData writes *)

Module CurrentAddressFacts.

Import Vk RenderContext RenderContextFacts.

Section WithAllocator.

Context {A : Type} `{Allocator A}.

Variable ctx : RenderContext.t.
Variable targetAllocator : nat.

(* The contract of a staging allocator: [ready] states are kept by allocate
   and map, which never lower [top]; a successful allocate hands out a block
   between the old and the new [top]; and map() after a successful allocate
   serves the mapped base plus the offset just returned. *)
Variable ready : A -> Prop.
Variable top : A -> Z.
Variable mappedBase : Z.

Hypothesis allocate_keeps : forall s n off0,
  ready s -> 0 <= n ->
  ready (allocate s n off0).2 /\ top s <= top (allocate s n off0).2.

Hypothesis map_keeps : forall s,
  ready s -> ready (map s).2 /\ top s <= top (map s).2.

Hypothesis allocate_block : forall s n off0,
  ready s -> 0 <= n -> (allocate s n off0).1.1 = true ->
  top s <= (allocate s n off0).1.2 /\
  (allocate s n off0).1.2 + n <= top (allocate s n off0).2.

Hypothesis map_current : forall s n off0,
  ready s -> 0 <= n -> (allocate s n off0).1.1 = true ->
  (map (allocate s n off0).2).1.1 = true ->
  (map (allocate s n off0).2).1.2 = mappedBase + (allocate s n off0).1.2.

Local Abbreviation stageItem := (stageItem ctx targetAllocator).
Local Abbreviation stageData := (stageData ctx targetAllocator).
Local Abbreviation staging w := (allocators w (mTransientMemory ctx)).

Lemma byteSize_nonneg src : 0 <= byteSize src.
Proof. unfold byteSize. apply VkFacts.wrap64_range. Qed.

Lemma callAllocate_keeps p n off (w : World A) :
  ready (staging w) -> 0 <= n ->
  ready (staging (callAllocate p n off w).2) /\
  top (staging w) <= top (staging (callAllocate p n off w).2).
Proof.
  intros Hr Hn. rewrite callAllocate_allocators.
  destruct (Nat.eqb_spec (mTransientMemory ctx) p) as [<-|_].
  - by apply allocate_keeps.
  - split; [done | lia].
Qed.

Lemma callMap_keeps p (w : World A) :
  ready (staging w) ->
  ready (staging (callMap p w).2) /\
  top (staging w) <= top (staging (callMap p w).2).
Proof.
  intros Hr. rewrite callMap_allocators.
  destruct (Nat.eqb_spec (mTransientMemory ctx) p) as [<-|_].
  - by apply map_keeps.
  - split; [done | lia].
Qed.

(* one pass of the loop body *)
Lemma stageItem_current src (w : World A) :
  ready (staging w) ->
  ready (staging (stageItem src w).2) /\
  top (staging w) <= top (staging (stageItem src w).2) /\
  match (stageItem src w).1 with
  | Some region =>
      hostWrites (stageItem src w).2 =
        hostWrites w ++
        [mkMemcpy (mappedBase + BufferCopy.srcOffset region)
           (TransferSrcData.pData src) (BufferCopy.size region)] /\
      top (staging w) <= BufferCopy.srcOffset region /\
      BufferCopy.srcOffset region + BufferCopy.size region
        <= top (staging (stageItem src w).2)
  | None => hostWrites (stageItem src w).2 = hostWrites w
  end.
Proof.
  intros Hr. pose proof (byteSize_nonneg src) as Hn.
  unfold RenderContext.stageItem.
  (* the destination allocation *)
  pose proof (callAllocate_keeps targetAllocator (byteSize src) 0 w Hr Hn) as K1.
  pose proof (callAllocate_hostWrites targetAllocator (byteSize src) 0 w) as W1.
  destruct (callAllocate targetAllocator (byteSize src) 0 w) as [[ok1 dstOff] w1].
  simpl in K1, W1. destruct K1 as [Hr1 Ht1].
  destruct ok1; [|by simpl].
  (* the staging allocation *)
  pose proof (callAllocate_result (mTransientMemory ctx) (byteSize src) 0 w1) as R2.
  pose proof (callAllocate_allocators (mTransientMemory ctx) (byteSize src) 0 w1 (mTransientMemory ctx)) as A2.
  rewrite Nat.eqb_refl in A2.
  pose proof (callAllocate_hostWrites (mTransientMemory ctx) (byteSize src) 0 w1) as W2.
  pose proof (allocate_keeps _ (byteSize src) 0 Hr1 Hn) as [Hr2 Ht2].
  pose proof (allocate_block _ (byteSize src) 0 Hr1 Hn) as B2.
  pose proof (map_current _ (byteSize src) 0 Hr1 Hn) as M2.
  rewrite <- A2 in Hr2, Ht2, B2, M2. rewrite <- R2 in B2, M2.
  clear R2 A2.
  destruct (callAllocate (mTransientMemory ctx) (byteSize src) 0 w1) as [[ok2 srcOff] w2].
  simpl in W2, Hr2, Ht2, B2, M2.
  destruct ok2.
  2:{ simpl. split; [done|]. split; [lia | congruence]. }
  destruct (B2 eq_refl) as [Blo Bhi]. specialize (M2 eq_refl).
  (* the mapping *)
  pose proof (callMap_result (mTransientMemory ctx) w2) as R3.
  pose proof (callMap_keeps (mTransientMemory ctx) w2 Hr2) as [Hr3 Ht3].
  pose proof (callMap_hostWrites (mTransientMemory ctx) w2) as W3.
  rewrite <- R3 in M2. clear R3.
  destruct (callMap (mTransientMemory ctx) w2) as [[ok3 pData] w3].
  simpl in W3, Hr3, Ht3, M2.
  destruct ok3.
  2:{ simpl. split; [done|]. split; [lia | congruence]. }
  simpl. rewrite (M2 eq_refl).
  split; [done|]. split; [lia|].
  split; [congruence|]. split; lia.
Qed.

(* the batch, with the bound the induction needs *)
Lemma stageData_current dataVec : forall w : World A,
  ready (staging w) ->
  exists writes,
    hostWrites (stageData dataVec w).2 = hostWrites w ++ writes /\
    length writes = length (stageData dataVec w).1 /\
    Forall (fun wr => mappedBase + top (staging w) <= mcDst wr /\ 0 <= mcCount wr)
      writes /\
    (forall (i : nat) wr, writes !! i = Some wr ->
       exists src region,
         dataVec !! i = Some src /\
         (stageData dataVec w).1 !! i = Some region /\
         mcDst wr = mappedBase + BufferCopy.srcOffset region /\
         mcSrc wr = TransferSrcData.pData src /\
         mcCount wr = BufferCopy.size region) /\
    (forall (i j : nat) wi wj,
       (i < j)%nat -> writes !! i = Some wi -> writes !! j = Some wj ->
       mcDst wi + mcCount wi <= mcDst wj).
Proof.
  induction dataVec as [|src rest IH]; intros w Hr.
  - exists []. simpl. rewrite app_nil_r. by repeat split.
  - destruct (stageItem_current src w Hr) as (Hr' & Htop & Hitem').
    pose proof (stageItem_size ctx targetAllocator src w) as Hsize.
    destruct (stageItem src w) as [[region|] w'] eqn:Hitem; simpl in *.
    + destruct Hitem' as (Hw & Hlo & Hhi).
      specialize (Hsize w' region eq_refl).
      pose proof (byteSize_nonneg src) as Hn.
      destruct (IH w' Hr') as (writes & Hall & Hlen & Hbound & Hith & Hord).
      rewrite (stageData_cons_ok _ _ _ _ _ _ _ Hitem). simpl.
      exists (mkMemcpy (mappedBase + BufferCopy.srcOffset region)
                (TransferSrcData.pData src) (BufferCopy.size region) :: writes).
      split; [by rewrite Hall, Hw, <- app_assoc|].
      split; [simpl; lia|].
      split.
      { constructor; [simpl; lia|].
        eapply Forall_impl; [exact Hbound|]. simpl. intros wr [? ?]. lia. }
      split.
      { intros [|i] wr Hi; simpl in Hi.
        - injection Hi as <-. by exists src, region.
        - by apply Hith. }
      intros [|i] [|j] wi wj Hij Hi Hj; simpl in Hi, Hj; try lia.
      * injection Hi as <-. simpl.
        pose proof (Forall_lookup_1 _ _ _ _ Hbound Hj) as [Hb _]. lia.
      * apply (Hord i j); [lia | done | done].
    + rewrite (stageData_cons_fail _ _ _ _ _ _ Hitem). simpl.
      exists []. rewrite app_nil_r. by repeat split.
Qed.


End WithAllocator.

(** *** The allocator of [CurrentAddress] keeps the contract *)

Section Instance.

Import BufferAllocator.

Variable st : Settings.
Variable base : Z.

Local Abbreviation ready := (CurrentAddress.ready st base).
Local Abbreviation top := CurrentAddress.top.

Lemma allocate_failed s n off0 :
  (CurrentAddress.allocate s n off0).1.1 = false ->
  (CurrentAddress.allocate s n off0).2 = s.
Proof.
  unfold CurrentAddress.allocate, BufferAllocator.allocate.
  destruct (n =? 0); [done|].
  destruct (mOffsetEnd s !! mCurrentVirtualFrameIdx s); [|done].
  by destruct (_ >? _).
Qed.

Lemma allocate_succeeded s n off0 :
  ready s -> (CurrentAddress.allocate s n off0).1.1 = true ->
  exists cur,
    cursor s = Some cur /\
    CurrentAddress.allocate s n off0 =
      (true, slotBase st (mCurrentVirtualFrameIdx s) + cur,
       CurrentAddress.pointAt
         (with_cursor s
            (<[mCurrentVirtualFrameIdx s := cur + roundUp (mAlignment s) n]>
               (mOffsetEnd s)))
         (base + (slotBase st (mCurrentVirtualFrameIdx s) + cur))).
Proof.
  intros (Hst & Hbase & Hidx & Ha & Hb & Hsz).
  unfold CurrentAddress.allocate.
  destruct (BufferAllocator.allocate s n off0) as [[ok o] s1] eqn:Hcall.
  destruct ok; [|done]. intros _.
  apply BufferAllocatorFacts.allocate_true_inv in Hcall
    as (cur & _ & Hc & _ & -> & -> & _).
  exists cur. split; [done|].
  rewrite Hbase, BufferAllocatorFacts.lookup_slotPointers by done. simpl.
  rewrite Hst.
  pose proof (BufferAllocatorFacts.slotBase_nonneg st (mCurrentVirtualFrameIdx s) Hsz).
  destruct (Z.eqb_spec (base + slotBase st (mCurrentVirtualFrameIdx s)) Vk.nullptr)
    as [Hnull|_]; [unfold Vk.nullptr in Hnull; lia|].
  do 2 f_equal. lia.
Qed.

Lemma top_after s cs address (c : Z) :
  cs !! mCurrentVirtualFrameIdx s = Some c ->
  top (CurrentAddress.pointAt (with_cursor s cs) address) =
    slotBase (mSettings s) (mCurrentVirtualFrameIdx s) + c.
Proof. intros Hc. unfold CurrentAddress.top, cursor. simpl. by rewrite Hc. Qed.

Lemma allocate_keeps s n off0 :
  ready s -> 0 <= n ->
  ready (CurrentAddress.allocate s n off0).2 /\
  top s <= top (CurrentAddress.allocate s n off0).2.
Proof.
  intros Hr Hn.
  destruct ((CurrentAddress.allocate s n off0).1.1) eqn:Hok.
  - destruct (allocate_succeeded s n off0 Hr Hok) as (cur & Hc & ->).
    destruct Hr as (Hst & Hbase & Hidx & Ha & Hb & Hsz). simpl.
    split; [done|].
    rewrite (top_after _ _ _ (cur + roundUp (mAlignment s) n)).
    2:{ apply list_lookup_insert_eq. unfold cursor in Hc. by eapply lookup_lt_Some. }
    unfold CurrentAddress.top. rewrite Hc. simpl.
    pose proof (BufferAllocatorFacts.roundUp_bounds (mAlignment s) Ha n). lia.
  - rewrite allocate_failed by done. split; [done | lia].
Qed.

Lemma map_keeps s :
  ready s -> ready (BufferAllocator.map s).2 /\ top s <= top (BufferAllocator.map s).2.
Proof. intros Hr. simpl. split; [done | lia]. Qed.

Lemma allocate_block s n off0 :
  ready s -> 0 <= n -> (CurrentAddress.allocate s n off0).1.1 = true ->
  top s <= (CurrentAddress.allocate s n off0).1.2 /\
  (CurrentAddress.allocate s n off0).1.2 + n
    <= top (CurrentAddress.allocate s n off0).2.
Proof.
  intros Hr Hn Hok.
  destruct (allocate_succeeded s n off0 Hr Hok) as (cur & Hc & ->).
  destruct Hr as (Hst & Hbase & Hidx & Ha & Hb & Hsz). simpl.
  rewrite (top_after _ _ _ (cur + roundUp (mAlignment s) n)).
  2:{ apply list_lookup_insert_eq. unfold cursor in Hc. by eapply lookup_lt_Some. }
  unfold CurrentAddress.top. rewrite Hc, Hst. simpl.
  pose proof (BufferAllocatorFacts.roundUp_bounds (mAlignment s) Ha n). lia.
Qed.

Lemma map_current s n off0 :
  ready s -> 0 <= n -> (CurrentAddress.allocate s n off0).1.1 = true ->
  (BufferAllocator.map (CurrentAddress.allocate s n off0).2).1.1 = true ->
  (BufferAllocator.map (CurrentAddress.allocate s n off0).2).1.2 =
    base + (CurrentAddress.allocate s n off0).1.2.
Proof.
  intros Hr Hn Hok _.
  by destruct (allocate_succeeded s n off0 Hr Hok) as (cur & Hc & ->).
Qed.

End Instance.


End CurrentAddressFacts.
